(** * The dropout-risk expert system (app.py): shallow embedding and properties

    The development follows app.py top-down: the naming normalizer
    ([camel_to_pascal], [pascal_to_camel]), the rule matcher ([match_rule]),
    the response formatter ([format_prediction]) and the two request handlers
    ([dropout_risk], [get_facts]); then the login handler ([login]) with its
    token ([generate_token]).

    Python values are modelled as follows.
    - A [str] is its sequence of Unicode code points, [list N].
    - A dict that is only read by key ([pascal_facts]) is a [gmap]; a dict
      whose iteration order is observable (the request body, the fact
      definitions, [camel_facts]) is the list of its items in order, updated
      with [dict_set], which is [d[k] = v].
    - The values of facts and of rule conditions are the JSON scalars of the
      data model: null, booleans, integers, floats and strings. Python
      compares them with [==]; [py_eq] spells that comparison out.
    - [str.upper] and [str.lower] belong to the Python runtime, not to
      app.py: they are the two fields of the class [CaseMapping]. *)

From Stdlib Require Import ZArith NArith QArith Qpower Ascii String.
From stdpp Require Import gmap list strings.

Open Scope Z_scope.

(** ** Strings *)

(** A Python [str]: its code points. *)
Abbreviation str := (list N).

(** The [str] denoted by an ASCII literal of the source. *)
Definition lit (s : string) : str := N_of_ascii <$> list_ascii_of_string s.

(** The two case conversions of the Python runtime, on whole strings.
    [str_upper] may change the length ("ß" becomes "SS"), and [str_lower]
    depends on the context of a character (final sigma), hence the type. *)
Class CaseMapping := {
  str_upper : str → str;
  str_lower : str → str
}.

(** The restriction of the Unicode case mapping to ASCII letters; every other
    code point is left alone. On ASCII-only strings it agrees with Python. *)
Definition ascii_upper_char (c : N) : N :=
  if ((97 <=? c) && (c <=? 122))%N then (c - 32)%N else c.
Definition ascii_lower_char (c : N) : N :=
  if ((65 <=? c) && (c <=? 90))%N then (c + 32)%N else c.

Definition ascii_case : CaseMapping := {|
  str_upper := fmap ascii_upper_char;
  str_lower := fmap ascii_lower_char
|}.

(** ** JSON scalar values and Python equality *)

(** A Python float: not-a-number, an infinity, or the finite number
    [m * 2^e] (both zeros are [m = 0]). *)
Inductive pyfloat :=
  | FNaN
  | FInf (negative : bool)
  | FFinite (m e : Z).

Inductive value :=
  | JNull
  | JBool (b : bool)
  | JInt (n : Z)
  | JFloat (f : pyfloat)
  | JStr (s : str).

#[global] Instance pyfloat_eq_dec : EqDecision pyfloat.
Proof. solve_decision. Defined.
#[global] Instance value_eq_dec : EqDecision value.
Proof. solve_decision. Defined.

Inductive pytype := TNone | TBool | TInt | TFloat | TStr.

Definition type_of (v : value) : pytype :=
  match v with
  | JNull => TNone
  | JBool _ => TBool
  | JInt _ => TInt
  | JFloat _ => TFloat
  | JStr _ => TStr
  end.

(** [v is None] *)
Definition is_none (v : value) : bool :=
  match v with JNull => true | _ => false end.

(** [x == y] on floats: IEEE equality, exact on finite numbers. *)
Definition float_eq (x y : pyfloat) : bool :=
  match x, y with
  | FFinite m1 e1, FFinite m2 e2 =>
      let e := Z.min e1 e2 in
      m1 * 2 ^ (e1 - e) =? m2 * 2 ^ (e2 - e)
  | FInf a, FInf b => bool_decide (a = b)
  | _, _ => false
  end.

(** The number a bool, int or float stands for in a comparison: [bool] is a
    subclass of [int] ([True == 1]), and an int is compared with a float by
    its exact value. *)
Definition as_number (v : value) : option pyfloat :=
  match v with
  | JBool b => Some (FFinite (Z.b2z b) 0)
  | JInt n => Some (FFinite n 0)
  | JFloat f => Some f
  | JNull | JStr _ => None
  end.

(** [x == y] on the scalar values. *)
Definition py_eq (x y : value) : bool :=
  match x, y with
  | JNull, JNull => true
  | JStr s, JStr t => bool_decide (s = t)
  | _, _ =>
      match as_number x, as_number y with
      | Some a, Some b => float_eq a b
      | _, _ => false
      end
  end.

(** ** Dicts whose order is observable *)

(** [d[k] = v] on an insertion-ordered dict, given by its items: an existing
    key keeps its position and takes the new value, a new key goes last. *)
Fixpoint dict_set {V : Type} (k : str) (v : V) (d : list (str * V)) : list (str * V) :=
  match d with
  | [] => [(k, v)]
  | (k', v') :: rest =>
      if decide (k = k') then (k, v) :: rest else (k', v') :: dict_set k v rest
  end.

(** [OrderedDict(pairs)], the [object_pairs_hook] of [load_facts]. *)
Definition ordered_dict {V : Type} (pairs : list (str * V)) : list (str * V) :=
  foldl (λ d kv, dict_set kv.1 kv.2 d) [] pairs.

(** ** Rules and responses *)

(** A rule object of rules.json, with the field types of the data model.
    Each of the three fields the program reads may be absent ([None]);
    ["actions"] may also be present and null. The keys the program never
    reads are kept by name: they decide whether the dict is empty. A field of
    another JSON type (a prediction that is not a string, conditions that are
    not an object), on which the program raises, has no place in this
    record; [raw_rule] below has one. *)
Record rule := {
  conditions : option (list (str * value));
  prediction : option str;
  actions : option (option (list str));
  other_keys : list str
}.

(** [bool(rule)]: a dict is false exactly when it has no key. *)
Definition rule_truthy (r : rule) : bool :=
  match conditions r, prediction r, actions r, other_keys r with
  | None, None, None, [] => false
  | _, _, _, _ => true
  end.

Record prediction_response := {
  willDropout : bool;
  riskLevel : str;
  explanation : str;
  remedies : list str
}.

(** What [jsonify] is given, with the HTTP status next to it. *)
Inductive json_body :=
  | ErrorJson (error : str)
  | PredictionJson (r : prediction_response).

Inductive facts_body (V : Type) :=
  | FactsError (error : str)
  | FactsJson (camel_facts : list (str * V)).
Arguments FactsError {V} error.
Arguments FactsJson {V} camel_facts.

(** ** Files, exceptions and the calls a handler makes *)

(** What reading and decoding a JSON file gives: [open] raises
    [FileNotFoundError], [json.load] raises [JSONDecodeError], anything else
    that goes wrong (an unreadable file, no ["rules"] key, a top level of
    another shape) raises some other exception with its message, and
    otherwise the content is there. *)
Inductive json_file (A : Type) :=
  | Missing
  | Malformed
  | Unusable (msg : str)
  | Content (a : A).
Arguments Missing {A}.
Arguments Malformed {A}.
Arguments Unusable {A} msg.
Arguments Content {A} a.

(** What [request.get_json()] gives: it raises, or returns a false value
    (None, false, 0, an empty string or list; the empty object is
    [ReqMapping []]), or a true value that is not an object, on which
    [.items()] raises with [msg], or an object with its items in order. *)
Inductive request_json :=
  | ReqRaises (msg : str)
  | ReqFalsy
  | ReqNotMapping (msg : str)
  | ReqMapping (items : list (str * value)).

Inductive exn :=
  | FileNotFoundError
  | JSONDecodeError
  | Exception (msg : str).

(** The calls of a handler that the properties speak of. *)
Inductive event :=
  | CallLoadRules
  | CallMatchRule
  | CallFormatPrediction
  | CallLoadFacts.

(** A computation that may raise, with the calls it made so far. *)
Definition M (A : Type) : Type := (exn + A) * list event.

#[global] Instance M_ret : MRet M := λ A a, (inr a, []).
#[global] Instance M_bind : MBind M := λ A B k m,
  match m with
  | (inl e, t) => (inl e, t)
  | (inr a, t) => let '(r, t') := k a in (r, t ++ t')
  end.

Definition raise {A : Type} (e : exn) : M A := (inl e, []).
Definition call (ev : event) : M unit := (inr (), [ev]).

(** [try: ... except FileNotFoundError: ... except json.JSONDecodeError: ...
    except Exception as e: ...], every handler answering 500. *)
Definition try_except {R : Type} (err : str → R) (not_found bad_format : str)
    (m : M (R * Z)) : (R * Z) * list event :=
  match m with
  | (inr r, t) => (r, t)
  | (inl FileNotFoundError, t) => ((err not_found, 500), t)
  | (inl JSONDecodeError, t) => ((err bad_format, 500), t)
  | (inl (Exception msg), t) => ((err msg, 500), t)
  end.

Definition load_json {A : Type} (f : json_file A) : M A :=
  match f with
  | Missing => raise FileNotFoundError
  | Malformed => raise JSONDecodeError
  | Unusable msg => raise (Exception msg)
  | Content a => mret a
  end.

(** ** Naming normalizer *)

Section Program.
Context `{CaseMapping}.

(** [if not camel_str: return camel_str;
     return camel_str[0].upper() + camel_str[1:]] *)
Definition camel_to_pascal (camel_str : str) : str :=
  match camel_str with
  | [] => camel_str
  | c :: rest => str_upper [c] ++ rest
  end.

Definition pascal_to_camel (pascal_str : str) : str :=
  match pascal_str with
  | [] => pascal_str
  | c :: rest => str_lower [c] ++ rest
  end.

(** ** Rule matcher *)

(** The first loop of [match_rule]: [pascal_facts], filled from the items of
    [facts] in order. *)
Fixpoint fill_pascal_facts (items : list (str * value))
    (pascal_facts : gmap (list N) value) : gmap (list N) value :=
  match items with
  | [] => pascal_facts
  | (key, v) :: rest =>
      if is_none v then fill_pascal_facts rest pascal_facts
      else fill_pascal_facts rest (<[camel_to_pascal key := v]> pascal_facts)
  end.

Definition pascal_facts_of (facts : list (str * value)) : gmap (list N) value :=
  fill_pascal_facts facts ∅.

(** The inner loop: [matches] after going through the items of
    [conditions], leaving at the first key that is missing or whose value
    differs. *)
Fixpoint conditions_match (pascal_facts : gmap (list N) value)
    (conditions : list (str * value)) : bool :=
  match conditions with
  | [] => true
  | (condition_key, condition_value) :: rest =>
      match pascal_facts !! condition_key with
      | None => false
      | Some v =>
          if negb (py_eq v condition_value) then false
          else conditions_match pascal_facts rest
      end
  end.

(** [rule.get('conditions', {})] *)
Definition get_conditions (r : rule) : list (str * value) :=
  default [] (conditions r).

(** The outer loop over [rules]. *)
Fixpoint first_match (pascal_facts : gmap (list N) value) (rules : list rule)
    : option rule :=
  match rules with
  | [] => None
  | r :: rest =>
      if conditions_match pascal_facts (get_conditions r) then Some r
      else first_match pascal_facts rest
  end.

Definition match_rule (facts : list (str * value)) (rules : list rule)
    : option rule :=
  first_match (pascal_facts_of facts) rules.

(** ** Response formatter *)

Definition format_prediction (prediction : str) (actions : option (list str))
    : prediction_response :=
  let prediction_lower := str_lower prediction in
  let '(will_dropout, risk_level, explanation) :=
    if bool_decide (prediction_lower = lit "dropout") then
      (true, lit "High",
       lit "Based on the provided facts, the expert system predicts a high risk of dropout. "
         ++ prediction)
    else if bool_decide (prediction_lower = lit "graduate") then
      (false, lit "Low",
       lit "Based on the provided facts, the expert system predicts the student will graduate successfully. "
         ++ prediction)
    else if bool_decide (prediction_lower = lit "staysenrolled") then
      (false, lit "Medium",
       lit "Based on the provided facts, the expert system predicts the student will stay enrolled. "
         ++ prediction)
    else
      (false, lit "Medium",
       lit "Based on the provided facts, the expert system prediction: "
         ++ prediction) in
  {| willDropout := will_dropout;
     riskLevel := risk_level;
     explanation := explanation;
     remedies := match actions with
                 | Some (a :: more) => a :: more
                 | Some [] | None => []
                 end |}.

(** ** Request handlers *)

(** [load_rules()] and [load_facts()]; the content of facts.json is the list
    of pairs of its top-level object, as [json.load] passes them to the
    [object_pairs_hook]. *)
Definition load_rules (rules_json : json_file (list rule)) : M (list rule) :=
  call CallLoadRules;; load_json rules_json.

Definition load_facts {V : Type} (facts_json : json_file (list (str * V)))
    : M (list (str * V)) :=
  call CallLoadFacts;; pairs ← load_json facts_json; mret (ordered_dict pairs).

(** [{k: v for k, v in data.items() if v is not None}] *)
Fixpoint keep_provided (items provided_facts : list (str * value))
    : list (str * value) :=
  match items with
  | [] => provided_facts
  | (k, v) :: rest =>
      if is_none v then keep_provided rest provided_facts
      else keep_provided rest (dict_set k v provided_facts)
  end.

(** The answer of [dropout_risk] when [matched_rule] is false. *)
Definition no_match_response : prediction_response :=
  {| willDropout := false;
     riskLevel := lit "Medium";
     explanation :=
       lit "Based on the provided facts, no specific rule matched. General monitoring recommended.";
     remedies := [lit "Regular check-ins with academic advisor";
                  lit "Monitor academic performance"] |}.

(** The [try] block of [dropout_risk]. [if not data] holds of every false
    value, the empty object included; [if matched_rule] fails on [None] and
    on a rule that is the empty dict. *)
Definition dropout_risk_try (body : request_json)
    (rules_json : json_file (list rule)) : M (json_body * Z) :=
  match body with
  | ReqRaises msg => raise (Exception msg)
  | ReqFalsy | ReqMapping [] =>
      mret (ErrorJson (lit "Missing request body"), 400)
  | ReqNotMapping msg => raise (Exception msg)
  | ReqMapping data =>
      let provided_facts := keep_provided data [] in
      if Z.of_nat (length provided_facts) <? 3 then
        mret (ErrorJson (lit "At least 3 facts are required"), 400)
      else
        rules ← load_rules rules_json;
        call CallMatchRule;;
        let matched_rule := match_rule provided_facts rules in
        match matched_rule with
        | Some r =>
            if rule_truthy r then
              let prediction := default (lit "StayEnrolled") (prediction r) in
              let actions := default (Some []) (actions r) in
              call CallFormatPrediction;;
              mret (PredictionJson (format_prediction prediction actions), 200)
            else mret (PredictionJson no_match_response, 200)
        | None => mret (PredictionJson no_match_response, 200)
        end
  end.

Definition dropout_risk (body : request_json)
    (rules_json : json_file (list rule)) : (json_body * Z) * list event :=
  try_except ErrorJson (lit "Rules file not found")
    (lit "Invalid rules file format") (dropout_risk_try body rules_json).

(** The loop of [get_facts]: [camel_facts[pascal_to_camel(key)] = value]. *)
Fixpoint fill_camel_facts {V : Type} (items camel_facts : list (str * V))
    : list (str * V) :=
  match items with
  | [] => camel_facts
  | (key, v) :: rest =>
      fill_camel_facts rest (dict_set (pascal_to_camel key) v camel_facts)
  end.

Definition get_facts {V : Type} (facts_json : json_file (list (str * V)))
    : (facts_body V * Z) * list event :=
  try_except FactsError (lit "Facts file not found")
    (lit "Invalid facts file format")
    (facts ← load_facts facts_json;
     mret (FactsJson (fill_camel_facts facts []), 200)).

(** ** The vocabulary of the properties *)

(** A character has a case-invertible form when upper-casing it gives one
    character, and lower-casing that one gives it back. *)
Definition case_invertible (c : N) : Prop :=
  ∃ u, str_upper [c] = [u] ∧ str_lower [u] = [c].

(** The fact items with a non-null value, each name in internal form. *)
Definition normalized_facts (facts : list (str * value)) : list (str * value) :=
  (λ kv, (camel_to_pascal kv.1, kv.2)) <$> filter (λ kv, kv.2 ≠ JNull) facts.

(** The normalized, null-filtered fact mapping: of two facts with the same
    internal name, the later one stays. *)
Definition normalized_mapping (facts : list (str * value)) : gmap (list N) value :=
  list_to_map (reverse (normalized_facts facts)).

(** A rule qualifies on a mapping when each of its condition keys is present
    in it with an equal value. *)
Definition qualifies (m : gmap (list N) value) (r : rule) : Prop :=
  ∀ k c, (k, c) ∈ get_conditions r → ∃ v, m !! k = Some v ∧ py_eq v c = true.

(** The number of entries of a request mapping with a non-null value. *)
Definition count_non_null (data : list (str * value)) : nat :=
  length (filter (λ kv, kv.2 ≠ JNull) data).

(** A fact mapping with every key in external form, in the same order. *)
Definition external_form {V : Type} (facts : list (str * V)) : list (str * V) :=
  (λ kv, (pascal_to_camel kv.1, kv.2)) <$> facts.

(** [extended_by P facts facts']: the items of [facts'] are those of [facts],
    in their order, with further items added anywhere, each satisfying [P]. *)
Inductive extended_by (P : str * value → Prop)
    : list (str * value) → list (str * value) → Prop :=
  | extended_nil : extended_by P [] []
  | extended_keep kv facts facts' :
      extended_by P facts facts' → extended_by P (kv :: facts) (kv :: facts')
  | extended_add kv facts facts' :
      P kv → extended_by P facts facts' → extended_by P facts (kv :: facts').

End Program.

(** ** Sample data *)

(** The rule [{"conditions": {"Enrolled": 1}}] and the rule [{}]. *)
Definition enrolled_is_one : rule :=
  {| conditions := Some [(lit "Enrolled", JInt 1)]; prediction := None;
     actions := None; other_keys := [] |}.

Definition empty_rule : rule :=
  {| conditions := None; prediction := None; actions := None; other_keys := [] |}.

(** Three facts, as a request body [{"a": 1, "b": 2, "c": 3}]. *)
Definition three_facts : list (str * value) :=
  [(lit "a", JInt 1); (lit "b", JInt 2); (lit "c", JInt 3)].

(** ** Login and its token *)

(** [bool(v)]: None, false, zero and the empty string are false. *)
Definition py_truthy (v : value) : bool :=
  match v with
  | JNull => false
  | JBool b => b
  | JInt n => negb (n =? 0)
  | JFloat (FFinite m _) => negb (m =? 0)
  | JFloat _ => true
  | JStr s => match s with [] => false | _ :: _ => true end
  end.

(** [d.get(k)] on the items of a dict: [None] when the key is missing. *)
Fixpoint dict_get {V : Type} (k : str) (d : list (str * V)) : option V :=
  match d with
  | [] => None
  | (k', v) :: rest => if decide (k = k') then Some v else dict_get k rest
  end.

(** [data.get(k)] as a value: a missing key gives Python's [None]. *)
Definition get_value (k : str) (data : list (str * value)) : value :=
  default JNull (dict_get k data).

(** [s.encode()]: the UTF-8 bytes of a string. A surrogate (U+D800 to
    U+DFFF) cannot be encoded, [UnicodeEncodeError]; a number past U+10FFFF
    is no code point of a [str]. *)
Definition utf8_encode_char (c : N) : option (list N) :=
  if (c <? 128)%N then Some [c]
  else if (c <? 2048)%N then Some [192 + c / 64; 128 + c mod 64]%N
  else if ((55296 <=? c) && (c <=? 57343))%N then None
  else if (c <? 65536)%N then
    Some [224 + c / 4096; 128 + (c / 64) mod 64; 128 + c mod 64]%N
  else if (c <? 1114112)%N then
    Some [240 + c / 262144; 128 + (c / 4096) mod 64;
          128 + (c / 64) mod 64; 128 + c mod 64]%N
  else None.

Fixpoint utf8_encode (s : str) : option (list N) :=
  match s with
  | [] => Some []
  | c :: rest =>
      match utf8_encode_char c, utf8_encode rest with
      | Some bs, Some more => Some (bs ++ more)
      | _, _ => None
      end
  end.

(** The base64 alphabet: A-Z, a-z, 0-9, [+] and [/], by 6-bit value. *)
Definition b64char (sextet : N) : N :=
  if (sextet <? 26)%N then (65 + sextet)%N
  else if (sextet <? 52)%N then (97 + (sextet - 26))%N
  else if (sextet <? 62)%N then (48 + (sextet - 52))%N
  else if (sextet =? 62)%N then 43%N
  else 47%N.

(** [base64.b64encode(bs).decode()]: three bytes give four characters; a
    last group of one or two bytes is padded with [=] (code 61). *)
Fixpoint b64encode (bs : list N) : str :=
  match bs with
  | [] => []
  | [a] => [b64char (a / 4); b64char (a mod 4 * 16); 61; 61]%N
  | [a; b] =>
      [b64char (a / 4); b64char (a mod 4 * 16 + b / 16);
       b64char (b mod 16 * 4); 61]%N
  | a :: b :: c :: rest =>
      [b64char (a / 4); b64char (a mod 4 * 16 + b / 16);
       b64char (b mod 16 * 4 + c / 64); b64char (c mod 64)]%N
      ++ b64encode rest
  end.

(** [generate_token(email)], with [timestamp] what
    [datetime.now().isoformat()] gives at the call; [None] stands for the
    [UnicodeEncodeError] of [encode]. *)
Definition generate_token (timestamp email : str) : option str :=
  let token_data := email ++ lit ":" ++ timestamp in
  b64encode <$> utf8_encode token_data.

Inductive login_body :=
  | LoginError (error : str)
  | LoginToken (token userName : str).

(** The [try] block of [login]; [inl msg] is an exception with [str(e) = msg].
    A value that is not a string is never [==] to a string, so only two
    strings reach the comparison with the credentials. [encode_error] is the
    text of the [UnicodeEncodeError] when the token cannot be encoded. *)
Definition login_try (timestamp encode_error : str) (body : request_json)
    : str + (login_body * Z) :=
  match body with
  | ReqRaises msg => inl msg
  | ReqFalsy | ReqMapping [] => inr (LoginError (lit "Missing request body"), 400)
  | ReqNotMapping msg => inl msg
  | ReqMapping data =>
      let email := get_value (lit "email") data in
      let password := get_value (lit "password") data in
      if negb (py_truthy email) || negb (py_truthy password) then
        inr (LoginError (lit "Email and password are required"), 400)
      else
        match email, password with
        | JStr e, JStr p =>
            if bool_decide (e = lit "user@gmail.com")
               && bool_decide (p = lit "Pwd4516") then
              match generate_token timestamp e with
              | Some token => inr (LoginToken token (lit "User"), 200)
              | None => inl encode_error
              end
            else inr (LoginError (lit "Invalid credentials"), 401)
        | _, _ => inr (LoginError (lit "Invalid credentials"), 401)
        end
  end.

(** [login]: [except Exception as e] answers 500 with [str(e)]. *)
Definition login (timestamp encode_error : str) (body : request_json)
    : login_body * Z :=
  match login_try timestamp encode_error body with
  | inr response => response
  | inl msg => (LoginError msg, 500)
  end.

(** ** More vocabulary *)

(** The 6-bit value of a character of the base64 alphabet. *)
Definition b64index (c : N) : option N :=
  if ((65 <=? c) && (c <=? 90))%N then Some (c - 65)%N
  else if ((97 <=? c) && (c <=? 122))%N then Some (c - 97 + 26)%N
  else if ((48 <=? c) && (c <=? 57))%N then Some (c - 48 + 52)%N
  else if (c =? 43)%N then Some 62%N
  else if (c =? 47)%N then Some 63%N
  else None.

(** Decoding of base64 text, group by group; padding only in the last
    group. [None] when the text is not base64. *)
Fixpoint b64decode (cs : str) : option (list N) :=
  match cs with
  | [] => Some []
  | c1 :: c2 :: c3 :: c4 :: rest =>
      s1 ← b64index c1; s2 ← b64index c2;
      if (c4 =? 61)%N then
        match rest with
        | [] =>
            if (c3 =? 61)%N then Some [s1 * 4 + s2 / 16]%N
            else s3 ← b64index c3;
                 Some [s1 * 4 + s2 / 16; s2 mod 16 * 16 + s3 / 4]%N
        | _ :: _ => None
        end
      else
        s3 ← b64index c3; s4 ← b64index c4; more ← b64decode rest;
        Some ([s1 * 4 + s2 / 16; s2 mod 16 * 16 + s3 / 4; s3 mod 4 * 64 + s4]%N
              ++ more)
  | _ => None
  end.

(** The sample credentials of the source and a timestamp. *)
Definition good_login : list (str * value) :=
  [(lit "email", JStr (lit "user@gmail.com"));
   (lit "password", JStr (lit "Pwd4516"))].

Definition sample_timestamp : str := lit "2026-11-04T10:00:00.123456".

(** ** Rule objects as rules.json may hold them *)

(** A field that the program reads with a type in mind: absent, of that
    type, or of another JSON type, on which the program raises when it uses
    the value ([msg] is the text of that exception). *)
Inductive field (A : Type) :=
  | Absent
  | Typed (a : A)
  | Untyped (msg : str).
Arguments Absent {A}.
Arguments Typed {A} a.
Arguments Untyped {A} msg.

(** A rule object whose conditions need not be an object ([.items()] raises
    otherwise) and whose prediction need not be a string ([.lower()] raises
    otherwise). *)
Record raw_rule := {
  raw_conditions : field (list (str * value));
  raw_prediction : field str;
  raw_actions : option (option (list str));
  raw_other_keys : list str
}.

(** An element of the rule list: an object, or a value on which [rule.get]
    raises. *)
Inductive rules_entry :=
  | RuleObject (r : raw_rule)
  | NotAnObject (msg : str).

(** The value under ["rules"]: what [for rule in rules] goes through, or a
    value that cannot be iterated. (An object or a string is gone through key
    by key or character by character, each a [NotAnObject].) *)
Inductive raw_rules :=
  | RulesList (entries : list rules_entry)
  | NotIterable (msg : str).

Definition raw_rule_truthy (r : raw_rule) : bool :=
  match raw_conditions r, raw_prediction r, raw_actions r, raw_other_keys r with
  | Absent, Absent, None, [] => false
  | _, _, _, _ => true
  end.

(** The loop over the rules, with the exceptions of [rule.get] and of
    [conditions.items()]; [inl msg] is an exception raised. *)
Fixpoint first_match_raw (pascal_facts : gmap (list N) value)
    (entries : list rules_entry) : str + option raw_rule :=
  match entries with
  | [] => inr None
  | NotAnObject msg :: _ => inl msg
  | RuleObject r :: rest =>
      match raw_conditions r with
      | Untyped msg => inl msg
      | Absent => inr (Some r)
      | Typed conditions =>
          if conditions_match pascal_facts conditions then inr (Some r)
          else first_match_raw pascal_facts rest
      end
  end.

(** A rule of the record type as a rule object, and so for a file. *)
Definition raw_of_rule (r : rule) : raw_rule :=
  {| raw_conditions := match conditions r with
                       | None => Absent
                       | Some c => Typed c
                       end;
     raw_prediction := match prediction r with
                       | None => Absent
                       | Some p => Typed p
                       end;
     raw_actions := actions r;
     raw_other_keys := other_keys r |}.

Definition raw_of_file (rules_json : json_file (list rule)) : json_file raw_rules :=
  match rules_json with
  | Missing => Missing
  | Malformed => Malformed
  | Unusable msg => Unusable msg
  | Content rules => Content (RulesList ((λ r, RuleObject (raw_of_rule r)) <$> rules))
  end.

Section RawHandler.
Context `{CaseMapping}.

Definition match_rule_raw (facts : list (str * value)) (rules : raw_rules)
    : str + option raw_rule :=
  let pascal_facts := pascal_facts_of facts in
  match rules with
  | NotIterable msg => inl msg
  | RulesList entries => first_match_raw pascal_facts entries
  end.

(** [dropout_risk] over such rules. *)
Definition dropout_risk_raw_try (body : request_json)
    (rules_json : json_file raw_rules) : M (json_body * Z) :=
  match body with
  | ReqRaises msg => raise (Exception msg)
  | ReqFalsy | ReqMapping [] =>
      mret (ErrorJson (lit "Missing request body"), 400)
  | ReqNotMapping msg => raise (Exception msg)
  | ReqMapping data =>
      let provided_facts := keep_provided data [] in
      if Z.of_nat (length provided_facts) <? 3 then
        mret (ErrorJson (lit "At least 3 facts are required"), 400)
      else
        rules ← (call CallLoadRules;; load_json rules_json);
        call CallMatchRule;;
        match match_rule_raw provided_facts rules with
        | inl msg => raise (Exception msg)
        | inr (Some r) =>
            if raw_rule_truthy r then
              let actions := default (Some []) (raw_actions r) in
              call CallFormatPrediction;;
              match raw_prediction r with
              | Absent =>
                  mret (PredictionJson
                          (format_prediction (lit "StayEnrolled") actions), 200)
              | Typed prediction =>
                  mret (PredictionJson (format_prediction prediction actions), 200)
              | Untyped msg => raise (Exception msg)
              end
            else mret (PredictionJson no_match_response, 200)
        | inr None => mret (PredictionJson no_match_response, 200)
        end
  end.

Definition dropout_risk_raw (body : request_json)
    (rules_json : json_file raw_rules) : (json_body * Z) * list event :=
  try_except ErrorJson (lit "Rules file not found")
    (lit "Invalid rules file format") (dropout_risk_raw_try body rules_json).

End RawHandler.

(** The rule [{"conditions": {}, "prediction": null}], and a rule whose
    conditions are null. *)
Definition null_prediction_rule : raw_rule :=
  {| raw_conditions := Typed [];
     raw_prediction := Untyped (lit "'NoneType' object has no attribute 'lower'");
     raw_actions := None; raw_other_keys := [] |}.

Definition null_conditions_rule : raw_rule :=
  {| raw_conditions := Untyped (lit "'NoneType' object has no attribute 'items'");
     raw_prediction := Typed (lit "Dropout");
     raw_actions := None; raw_other_keys := [] |}.

(** ** Vocabulary of the amended properties *)

(** The number that a bool, an int or a float stands for: not a number, an
    infinity, or a rational; [FFinite m e] is the rational [m * 2^e]. *)
Inductive number :=
  | NotANumber
  | Infinite (negative : bool)
  | Finite (q : Q).

Definition float_number (f : pyfloat) : number :=
  match f with
  | FNaN => NotANumber
  | FInf negative => Infinite negative
  | FFinite m e => Finite (inject_Z m * 2 ^ e)%Q
  end.

Definition number_of (v : value) : option number :=
  match v with
  | JBool true => Some (Finite 1%Q)
  | JBool false => Some (Finite 0%Q)
  | JInt n => Some (Finite (inject_Z n))
  | JFloat f => Some (float_number f)
  | JNull | JStr _ => None
  end.

(** Equal as numbers: the same infinity, or equal rationals; not-a-number
    equals nothing. *)
Definition same_number (x y : number) : Prop :=
  match x, y with
  | Finite p, Finite q => (p == q)%Q
  | Infinite a, Infinite b => a = b
  | _, _ => False
  end.

(** The case mapping does on ASCII characters what Python's does: lower-case
    letters have an upper-case form, upper-case letters a lower-case form,
    and every other character is its own. *)
Definition agrees_with_ascii `{CaseMapping} : Prop :=
  ∀ c, (c < 128)%N →
    str_upper [c] = [ascii_upper_char c] ∧ str_lower [c] = [ascii_lower_char c].

(** A character has a case-invertible form, as the letters have: its
    upper-case and its lower-case form are single characters, and each is got
    back from the other. *)
Definition has_case_pair `{CaseMapping} (c : N) : Prop :=
  ∃ u l, str_upper [c] = [u] ∧ str_lower [c] = [l] ∧
         str_lower [u] = [l] ∧ str_upper [l] = [u].

(** The names of a list, each once, at its first place. *)
Fixpoint first_occurrences (names : list (list N)) : list (list N) :=
  match names with
  | [] => []
  | name :: rest => name :: filter (λ other, other ≠ name) (first_occurrences rest)
  end.

(** * Properties *)

(** ** Naming normalizer *)

Section NormalizerProperties.
Context `{CaseMapping}.

Lemma pascal_to_camel_after_upper c u rest :
  str_upper [c] = [u] →
  pascal_to_camel (camel_to_pascal (c :: rest)) = str_lower [u] ++ rest.
Proof. intros Hu. cbn. by rewrite Hu. Qed.

Lemma ascii_round_trip_char (c : N) :
  (c < 128)%N →
  (ascii_upper_char c < 128)%N ∧
  ascii_lower_char (ascii_upper_char c)
  = if ((65 <=? c) && (c <=? 90))%N then (c + 32)%N else c.
Proof.
  intros Hc. unfold ascii_upper_char, ascii_lower_char.
  destruct (N.leb_spec 97 c), (N.leb_spec c 122), (N.leb_spec 65 c),
    (N.leb_spec c 90); cbn [andb]; try lia;
    repeat match goal with
    | |- context [(?a <=? ?b)%N] => destruct (N.leb_spec a b)
    end; cbn [andb]; lia.
Qed.

Lemma ascii_round_trip (c : N) (rest : str) :
  agrees_with_ascii → (c < 128)%N →
  pascal_to_camel (camel_to_pascal (c :: rest))
  = (if ((65 <=? c) && (c <=? 90))%N then (c + 32)%N else c) :: rest.
Proof.
  intros Hascii Hc. destruct (ascii_round_trip_char c Hc) as [Hu Hback].
  rewrite (pascal_to_camel_after_upper c (ascii_upper_char c))
    by apply (Hascii c Hc).
  rewrite (proj2 (Hascii _ Hu)), Hback. done.
Qed.

(** C5, amended. Both conversions are total functions that send the empty
    string to the empty string and, on a non-empty string, replace the first
    character by its upper-cased (lower-cased) form and keep every later
    character as it is. Converting to internal form and back gives the string
    again when upper-casing its first character gives one character that
    lower-cases back to it; among the strings with an ASCII first character
    these are exactly the ones that do not start with an upper-case letter,
    and a string that does comes back with that letter in lower case. *)
Theorem normalizer_round_trip :
  (camel_to_pascal [] = [] ∧ pascal_to_camel [] = []) ∧
  (∀ c rest,
     camel_to_pascal (c :: rest) = str_upper [c] ++ rest ∧
     pascal_to_camel (c :: rest) = str_lower [c] ++ rest) ∧
  (∀ c rest,
     case_invertible c →
     pascal_to_camel (camel_to_pascal (c :: rest)) = c :: rest) ∧
  (agrees_with_ascii →
   (∀ c rest, (c < 128)%N →
      pascal_to_camel (camel_to_pascal (c :: rest)) = c :: rest
      ↔ ¬ (65 ≤ c ≤ 90)%N) ∧
   (∀ c rest, (65 ≤ c ≤ 90)%N →
      pascal_to_camel (camel_to_pascal (c :: rest)) = (c + 32)%N :: rest)).
Proof.
  split; [done|]. split; [done|]. split.
  { intros c rest (u & Hu & Hl).
    by rewrite (pascal_to_camel_after_upper c u), Hl. }
  intros Hascii. split.
  - intros c rest Hc. rewrite ascii_round_trip by done.
    destruct (N.leb_spec 65 c), (N.leb_spec c 90); cbn [andb];
      (split; [|intros; f_equal]); try lia; try done.
    intros [= Hplus]. lia.
  - intros c rest [Hlo Hhi]. rewrite ascii_round_trip by (done || lia).
    by rewrite (proj2 (N.leb_le _ _) Hlo), (proj2 (N.leb_le _ _) Hhi).
Qed.

End NormalizerProperties.

Lemma ascii_case_agrees : @agrees_with_ascii ascii_case.
Proof. intros c _. split; reflexivity. Qed.

Lemma normalizer_round_trip_witness :
  @agrees_with_ascii ascii_case ∧
  @pascal_to_camel ascii_case (@camel_to_pascal ascii_case (lit "ageAtEnrollment"))
  = lit "ageAtEnrollment".
Proof.
  split; [exact ascii_case_agrees|].
  refine (proj2 (proj1 (proj2 (proj2 (proj2 (@normalizer_round_trip ascii_case)))
                         ascii_case_agrees) 97%N _ _) _); [reflexivity|].
  intros [Hlo Hhi]. vm_compute in Hhi. by apply Hhi.
Defined.

(** C5 as stated fails: an upper-case letter has a case-invertible form, its
    two case forms being got from each other, yet a name that starts with one
    comes back with it in lower case. *)
Lemma upper_first_round_trip_counterexample :
  @has_case_pair ascii_case 65%N ∧
  @pascal_to_camel ascii_case (@camel_to_pascal ascii_case (lit "Age")) = lit "age" ∧
  lit "age" ≠ lit "Age".
Proof.
  split; [by exists 65%N, 97%N|]. split; [reflexivity | discriminate].
Qed.

(** A first letter that is already in upper case is not of this kind: the
    way back lower-cases it. *)
Example round_trip_of_upper_first :
  @pascal_to_camel ascii_case (@camel_to_pascal ascii_case (lit "Age")) = lit "age".
Proof. reflexivity. Qed.

(** ** Rule matcher *)

Section MatcherProperties.
Context `{CaseMapping}.

Lemma is_none_false v : v ≠ JNull → is_none v = false.
Proof. by destruct v. Qed.

Lemma fill_pascal_facts_union items acc :
  fill_pascal_facts items acc = normalized_mapping items ∪ acc.
Proof.
  unfold normalized_mapping, normalized_facts.
  revert acc. induction items as [|[k v] items IH]; intros acc.
  - cbn. by rewrite (left_id_L ∅ (∪)).
  - cbn [fill_pascal_facts]. destruct (decide (v = JNull)) as [->|Hv].
    + cbn [is_none]. by rewrite IH, filter_cons_False by (cbn; tauto).
    + rewrite is_none_false, IH, filter_cons_True by done.
      rewrite fmap_cons, reverse_cons, list_to_map_app. cbn.
      by rewrite insert_empty, <- (assoc_L (∪)), <- insert_union_singleton_l.
Qed.

Lemma pascal_facts_of_normalized facts :
  pascal_facts_of facts = normalized_mapping facts.
Proof.
  unfold pascal_facts_of. by rewrite fill_pascal_facts_union, (right_id_L ∅ (∪)).
Qed.

Lemma conditions_match_true m conds :
  conditions_match m conds = true ↔
  ∀ k c, (k, c) ∈ conds → ∃ v, m !! k = Some v ∧ py_eq v c = true.
Proof.
  induction conds as [|[k c] conds IH]; cbn.
  - split; [|done]. intros _ k c Hin. by apply elem_of_nil in Hin.
  - destruct (m !! k) as [v|] eqn:Hk.
    + destruct (py_eq v c) eqn:Heq; cbn.
      * rewrite IH. split.
        -- intros Hall k' c' [Hhd|Htl]%elem_of_cons; [|by apply Hall].
           inversion Hhd; subst. eauto.
        -- intros Hall k' c' Hin. apply Hall. by right.
      * split; [done|]. intros Hall.
        destruct (Hall k c) as (v' & Hv' & Heq'); [by left|]. congruence.
    + split; [done|]. intros Hall.
      destruct (Hall k c) as (v' & Hv' & _); [by left|]. congruence.
Qed.

Lemma conditions_match_qualifies m r :
  conditions_match m (get_conditions r) = true ↔ qualifies m r.
Proof. apply conditions_match_true. Qed.

Lemma first_match_Some m rules r :
  first_match m rules = Some r →
  ∃ before after, rules = before ++ r :: after ∧ qualifies m r ∧
    Forall (λ r', ¬ qualifies m r') before.
Proof.
  induction rules as [|r0 rules IH]; [done|]. cbn.
  destruct (conditions_match m (get_conditions r0)) eqn:Hm.
  - intros [= ->]. exists [], rules. split; [done|].
    split; [by apply conditions_match_qualifies | constructor].
  - intros (before & after & -> & Hq & Hbefore)%IH.
    exists (r0 :: before), after. split; [done|]. split; [done|].
    constructor; [|done]. rewrite <- conditions_match_qualifies. congruence.
Qed.

Lemma first_match_None m rules :
  first_match m rules = None → Forall (λ r', ¬ qualifies m r') rules.
Proof.
  induction rules as [|r0 rules IH]; [constructor|]. cbn.
  destruct (conditions_match m (get_conditions r0)) eqn:Hm; [done|].
  intros Hnone. constructor; [|by apply IH].
  rewrite <- conditions_match_qualifies. congruence.
Qed.

Lemma first_match_skip m before rules :
  Forall (λ r', ¬ qualifies m r') before →
  first_match m (before ++ rules) = first_match m rules.
Proof.
  induction 1 as [|r0 before Hr0 _ IH]; [done|]. cbn.
  destruct (conditions_match m (get_conditions r0)) eqn:Hm; [|done].
  by apply conditions_match_qualifies in Hm.
Qed.

Lemma first_match_None_iff m rules :
  first_match m rules = None ↔ Forall (λ r', ¬ qualifies m r') rules.
Proof.
  split; [apply first_match_None|]. intros Hnone.
  rewrite <- (app_nil_r rules). by rewrite first_match_skip.
Qed.

Lemma first_match_Some_iff m rules r :
  first_match m rules = Some r ↔
  ∃ before after, rules = before ++ r :: after ∧ qualifies m r ∧
    Forall (λ r', ¬ qualifies m r') before.
Proof.
  split; [apply first_match_Some|].
  intros (before & after & -> & Hq & Hbefore).
  rewrite first_match_skip by done. cbn.
  by rewrite (proj2 (conditions_match_qualifies m r) Hq).
Qed.

(** C1. [match_rule] returns the first rule, in list order, that qualifies on
    the normalized, null-filtered fact mapping: it returns [r] exactly when
    [r] stands in the list, qualifies, and no rule before it qualifies; and
    it returns [None] exactly when no rule of the list qualifies. *)
Theorem match_rule_first_qualifying (facts : list (str * value)) (rules : list rule) :
  (∀ r, match_rule facts rules = Some r ↔
     ∃ before after, rules = before ++ r :: after ∧
       qualifies (normalized_mapping facts) r ∧
       Forall (λ r', ¬ qualifies (normalized_mapping facts) r') before) ∧
  (match_rule facts rules = None ↔
     Forall (λ r', ¬ qualifies (normalized_mapping facts) r') rules).
Proof.
  unfold match_rule. rewrite pascal_facts_of_normalized. split.
  - intros r. apply first_match_Some_iff.
  - apply first_match_None_iff.
Qed.

(** C6. A rule with no condition is returned by [match_rule] whenever no
    rule before it in the list qualifies, whatever the facts are and whatever
    rules follow it. *)
Theorem empty_conditions_catch_all (facts : list (str * value))
    (before after : list rule) (r : rule) :
  get_conditions r = [] →
  Forall (λ r', ¬ qualifies (normalized_mapping facts) r') before →
  match_rule facts (before ++ r :: after) = Some r.
Proof.
  intros Hempty Hbefore. unfold match_rule.
  rewrite pascal_facts_of_normalized, first_match_skip by done.
  cbn. by rewrite Hempty.
Qed.

Lemma conditions_match_ext m m' conds :
  (∀ k c, (k, c) ∈ conds → m !! k = m' !! k) →
  conditions_match m conds = conditions_match m' conds.
Proof.
  induction conds as [|[k c] conds IH]; intros Hsame; [done|]. cbn.
  rewrite <- (Hsame k c) by (by left).
  rewrite IH; [done|]. intros k' c' Hin. apply (Hsame k' c'). by right.
Qed.

Lemma extended_by_impl (P Q : str * value → Prop) facts facts' :
  (∀ kv, P kv → Q kv) → extended_by P facts facts' → extended_by Q facts facts'.
Proof. intros HPQ. induction 1; constructor; auto. Qed.

Lemma fill_pascal_facts_extended K facts facts' :
  extended_by (λ kv, camel_to_pascal kv.1 ≠ K) facts facts' →
  ∀ acc acc', acc !! K = acc' !! K →
  fill_pascal_facts facts acc !! K = fill_pascal_facts facts' acc' !! K.
Proof.
  induction 1 as [|[k v] facts facts' _ IH|[k v] facts facts' Hk _ IH];
    intros acc acc' Hacc; cbn [fill_pascal_facts].
  - done.
  - destruct (is_none v); apply IH; [done|].
    destruct (decide (camel_to_pascal k = K)) as [->|Hne].
    + by rewrite !lookup_insert_eq.
    + by rewrite !lookup_insert_ne.
  - destruct (is_none v); apply IH; [done|].
    cbn in Hk. by rewrite lookup_insert_ne.
Qed.

(** C7. When the facts satisfy all the conditions of a rule, they still do
    after further non-null facts are added whose internal names the rule's
    conditions do not mention. *)
Theorem extra_facts_do_not_block (r : rule) (facts facts' : list (str * value)) :
  extended_by
    (λ kv, kv.2 ≠ JNull ∧ ∀ c, (camel_to_pascal kv.1, c) ∉ get_conditions r)
    facts facts' →
  conditions_match (pascal_facts_of facts) (get_conditions r) = true →
  conditions_match (pascal_facts_of facts') (get_conditions r) = true.
Proof.
  intros Hext <-. symmetry. apply conditions_match_ext. intros k c Hin.
  unfold pascal_facts_of. apply fill_pascal_facts_extended; [|done].
  eapply extended_by_impl; [|exact Hext].
  intros kv [_ Hkv] Hk. apply (Hkv c). by rewrite Hk.
Qed.

Lemma py_eq_other_type_false (f c : value) :
  type_of f ≠ type_of c →
  type_of f ∈ [TStr; TNone] ∨ type_of c ∈ [TStr; TNone] →
  py_eq f c = false.
Proof.
  intros Hne Hkind.
  destruct f, c; cbn in *; try done; exfalso;
    destruct Hkind as [Hin|Hin];
    repeat (apply elem_of_cons in Hin as [Hin|Hin]; [discriminate|]);
    by apply elem_of_nil in Hin.
Qed.

Lemma float_eq_integers (a b : Z) :
  float_eq (FFinite a 0) (FFinite b 0) = true ↔ a = b.
Proof.
  unfold float_eq. rewrite Z.eqb_eq, Z.min_id, Z.sub_diag, Z.pow_0_r. lia.
Qed.

Lemma two_not_0 : ¬ (2 == 0)%Q.
Proof. discriminate. Qed.

Lemma scaled_integers_rationals (m1 e1 m2 e2 : Z) :
  m1 * 2 ^ (e1 - Z.min e1 e2) = m2 * 2 ^ (e2 - Z.min e1 e2) ↔
  (inject_Z m1 * 2 ^ e1 == inject_Z m2 * 2 ^ e2)%Q.
Proof.
  set (e := Z.min e1 e2).
  assert (He1 : e1 = (e1 - e) + e) by lia.
  assert (He2 : e2 = (e2 - e) + e) by lia.
  rewrite He1 at 2. rewrite He2 at 2.
  rewrite !Qpower_plus by apply two_not_0.
  rewrite !Qmult_assoc, Qmult_inj_r by apply Qpower_not_0, two_not_0.
  rewrite <- !(Zpower_Qpower 2) by lia.
  rewrite <- !inject_Z_mult. symmetry. apply inject_Z_injective.
Qed.

Lemma float_eq_same_number (x y : pyfloat) :
  float_eq x y = true ↔ same_number (float_number x) (float_number y).
Proof.
  destruct x as [|a|m1 e1], y as [|b|m2 e2]; cbn [float_eq float_number same_number];
    try (split; [discriminate | tauto]).
  - apply bool_decide_eq_true.
  - rewrite Z.eqb_eq. apply scaled_integers_rationals.
Qed.

Lemma as_number_number_of (v : value) (x : number) :
  number_of v = Some x →
  ∃ f, as_number v = Some f ∧ ∀ y, same_number x y ↔ same_number (float_number f) y.
Proof.
  assert (Hint : ∀ n y, same_number (Finite (inject_Z n)) y
                        ↔ same_number (float_number (FFinite n 0)) y).
  { intros n [| |q]; cbn; [tauto | tauto | by rewrite Qmult_1_r]. }
  destruct v as [|[]|n|f|s]; cbn; try discriminate; intros [= <-].
  - exists (FFinite 1 0). split; [done|]. apply (Hint 1).
  - exists (FFinite 0 0). split; [done|]. apply (Hint 0).
  - exists (FFinite n 0). split; [done|]. apply Hint.
  - exists f. by split.
Qed.

Lemma same_number_sym (x y : number) : same_number x y → same_number y x.
Proof. destruct x, y; cbn; first [done | intros Hq; by symmetry]. Qed.

Lemma py_eq_same_number (f c : value) (x y : number) :
  number_of f = Some x → number_of c = Some y →
  py_eq f c = true ↔ same_number x y.
Proof.
  intros (fx & Hfx & Hx)%as_number_number_of (fy & Hfy & Hy)%as_number_number_of.
  assert (Heq : py_eq f c = float_eq fx fy).
  { destruct f, c; cbn in Hfx, Hfy; try discriminate;
      injection Hfx as <-; injection Hfy as <-; reflexivity. }
  rewrite Heq, float_eq_same_number, Hx. split; intros Hs.
  - apply same_number_sym, Hy, same_number_sym, Hs.
  - apply same_number_sym, Hy, same_number_sym, Hs.
Qed.

(** C2, amended. The comparison of a fact value with a condition value is
    Python's [==], and the condition holds exactly when it says equal.
    Between values of different types of which one is a string or null it is
    unequal, and a rule with such a condition does not match; between
    booleans, integers and floats it goes by the number they stand for
    (not-a-number equal to nothing): true equals 1, false equals 0, and an
    integer equals the float of the same value. *)
Theorem mismatched_types_compare_as_python (f c : value) :
  type_of f ≠ type_of c →
  (type_of f ∈ [TStr; TNone] ∨ type_of c ∈ [TStr; TNone] →
   py_eq f c = false ∧
   ∀ m conds k, m !! k = Some f → (k, c) ∈ conds →
     conditions_match m conds = false) ∧
  (∀ x y, number_of f = Some x → number_of c = Some y →
     py_eq f c = true ↔ same_number x y) ∧
  (∀ (m : gmap (list N) value) k, m !! k = Some f →
     conditions_match m [(k, c)] = py_eq f c) ∧
  (∀ b n, f = JBool b → c = JInt n → py_eq f c = true ↔ n = Z.b2z b) ∧
  (∀ b n, f = JInt n → c = JBool b → py_eq f c = true ↔ n = Z.b2z b) ∧
  (∀ n k, f = JInt n → c = JFloat (FFinite k 0) → py_eq f c = true ↔ n = k) ∧
  (∀ n k, f = JFloat (FFinite k 0) → c = JInt n → py_eq f c = true ↔ k = n).
Proof.
  intros Hne.
  split; [|split; [|split]].
  - intros Hkind. pose proof (py_eq_other_type_false f c Hne Hkind) as Heq.
    split; [done|]. intros m conds k Hk Hin.
    destruct (conditions_match m conds) eqn:Hm; [|done].
    destruct (proj1 (conditions_match_true m conds) Hm k c Hin) as (v & Hv & Hvc).
    congruence.
  - intros x y. apply py_eq_same_number.
  - intros m k Hk. cbn [conditions_match]. rewrite Hk. by destruct (py_eq f c).
  - repeat apply conj; intros; subst; cbn [py_eq as_number];
      rewrite float_eq_integers; split; congruence.
Qed.

End MatcherProperties.

Lemma not_qualifies_by_test m r :
  conditions_match m (get_conditions r) = false → ¬ qualifies m r.
Proof. intros Hm Hq%conditions_match_qualifies. congruence. Qed.

Lemma empty_conditions_catch_all_witness :
  get_conditions empty_rule = [] ∧
  @match_rule ascii_case three_facts ([enrolled_is_one] ++ empty_rule :: [])
  = Some empty_rule.
Proof.
  split; [reflexivity|].
  apply (@empty_conditions_catch_all ascii_case); [reflexivity|].
  constructor; [|constructor].
  apply not_qualifies_by_test. vm_compute. reflexivity.
Defined.

Lemma extra_facts_do_not_block_witness :
  conditions_match
    (@pascal_facts_of ascii_case
       [(lit "gpa", JInt 2); (lit "enrolled", JInt 1); (lit "age", JInt 19)])
    (get_conditions enrolled_is_one) = true.
Proof.
  apply (@extra_facts_do_not_block ascii_case enrolled_is_one
           [(lit "enrolled", JInt 1)]).
  - apply extended_add; [|apply extended_keep, extended_add; [|constructor]];
      (split; [discriminate|]); intros c Hin; vm_compute in Hin;
      apply list_elem_of_singleton in Hin; discriminate.
  - vm_compute. reflexivity.
Defined.

(** C2 as stated fails: a boolean fact and an integer condition are values of
    different types, yet they compare equal and the rule matches. *)
Lemma strict_equality_counterexample :
  type_of (JBool true) ≠ type_of (JInt 1) ∧
  py_eq (JBool true) (JInt 1) = true ∧
  @match_rule ascii_case [(lit "enrolled", JBool true)] [enrolled_is_one]
  = Some enrolled_is_one.
Proof. split; [discriminate|]. split; vm_compute; reflexivity. Qed.

Lemma mismatched_types_compare_as_python_witness :
  py_eq (JStr (lit "3")) (JInt 3) = false ∧
  conditions_match {[ lit "Age" := JStr (lit "3") ]}
    [(lit "Age", JInt 3)] = false.
Proof.
  assert (Hne : type_of (JStr (lit "3")) ≠ type_of (JInt 3)) by discriminate.
  assert (Hkind : type_of (JStr (lit "3")) ∈ [TStr; TNone] ∨
                  type_of (JInt 3) ∈ [TStr; TNone]) by (left; left).
  destruct (proj1 (mismatched_types_compare_as_python
                     (JStr (lit "3")) (JInt 3) Hne) Hkind) as [Heq Hrule].
  split; [exact Heq|].
  apply (Hrule _ _ (lit "Age")); [reflexivity | left].
Defined.

(** A boolean against a float, an integer against a float with an exponent,
    and two numbers that differ. *)
Example py_eq_across_numbers :
  py_eq (JBool true) (JFloat (FFinite 1 0)) = true ∧
  py_eq (JInt 2) (JFloat (FFinite 1 1)) = true ∧
  py_eq (JFloat (FFinite 3 (-1))) (JInt 1) = false ∧
  py_eq (JFloat FNaN) (JInt 0) = false.
Proof. repeat split. Qed.

(** ** Response formatter *)

Section FormatterProperties.
Context `{CaseMapping}.

Lemma known_labels_differ :
  lit "dropout" ≠ lit "graduate" ∧ lit "dropout" ≠ lit "staysenrolled" ∧
  lit "graduate" ≠ lit "staysenrolled".
Proof. repeat split; discriminate. Qed.

Lemma format_prediction_remedies (prediction : str) (actions : option (list str)) :
  remedies (format_prediction prediction actions) = default [] actions.
Proof.
  unfold format_prediction.
  repeat case_bool_decide; by destruct actions as [[|]|].
Qed.

(** C3. [format_prediction] classifies a label by comparing its lower-cased
    form, as a whole, with the three known labels, and answers by the table;
    any other label gets the generic answer. In each case the explanation
    ends with the label as it was given, and the remedies are the actions, or
    the empty list when the actions are null. *)
Theorem format_prediction_table (prediction : str) (actions : option (list str)) :
  let r := format_prediction prediction actions in
  let label := str_lower prediction in
  (label = lit "dropout" →
     willDropout r = true ∧ riskLevel r = lit "High" ∧
     explanation r =
       lit "Based on the provided facts, the expert system predicts a high risk of dropout. "
         ++ prediction) ∧
  (label = lit "graduate" →
     willDropout r = false ∧ riskLevel r = lit "Low" ∧
     explanation r =
       lit "Based on the provided facts, the expert system predicts the student will graduate successfully. "
         ++ prediction) ∧
  (label = lit "staysenrolled" →
     willDropout r = false ∧ riskLevel r = lit "Medium" ∧
     explanation r =
       lit "Based on the provided facts, the expert system predicts the student will stay enrolled. "
         ++ prediction) ∧
  (label ≠ lit "dropout" → label ≠ lit "graduate" → label ≠ lit "staysenrolled" →
     willDropout r = false ∧ riskLevel r = lit "Medium" ∧
     explanation r =
       lit "Based on the provided facts, the expert system prediction: "
         ++ prediction) ∧
  prediction `suffix_of` explanation r ∧
  remedies r = default [] actions.
Proof.
  destruct known_labels_differ as (Hdg & Hds & Hgs).
  cbv zeta. unfold format_prediction.
  repeat case_bool_decide; cbn [willDropout riskLevel explanation remedies];
    (repeat apply conj; [..| eexists; reflexivity | by destruct actions as [[|]|]]);
    intros; first [done | congruence].
Qed.

End FormatterProperties.

Example format_Dropout :
  @format_prediction ascii_case (lit "Dropout") (Some []) =
  {| willDropout := true; riskLevel := lit "High";
     explanation :=
       lit "Based on the provided facts, the expert system predicts a high risk of dropout. Dropout";
     remedies := [] |}.
Proof. vm_compute. reflexivity. Qed.

Example format_GRADUATE :
  let r := @format_prediction ascii_case (lit "GRADUATE") (Some [lit "x"]) in
  willDropout r = false ∧ riskLevel r = lit "Low" ∧ remedies r = [lit "x"].
Proof. vm_compute. done. Qed.

Example format_Unknown :
  let r := @format_prediction ascii_case (lit "Unknown") None in
  willDropout r = false ∧ riskLevel r = lit "Medium" ∧ remedies r = [] ∧
  lit "Unknown" `suffix_of` explanation r.
Proof.
  repeat split; try (vm_compute; reflexivity).
  by exists (lit "Based on the provided facts, the expert system prediction: ").
Qed.

(** ** Ordered dicts *)

Section DictProperties.
Context {V : Type}.
Implicit Types (d pairs : list (str * V)).

Lemma dict_set_length k (v : V) d : (length (dict_set k v d) ≤ S (length d))%nat.
Proof.
  induction d as [|[k' v'] d IH]; cbn; [lia|].
  case_decide; cbn; lia.
Qed.

Lemma dict_set_fresh k (v : V) d : k ∉ d.*1 → dict_set k v d = d ++ [(k, v)].
Proof.
  induction d as [|[k' v'] d IH]; cbn; [done|].
  intros [Hne Hd]%not_elem_of_cons.
  rewrite decide_False by done. by rewrite IH.
Qed.

Lemma foldl_dict_set_fresh pairs d :
  NoDup (d.*1 ++ pairs.*1) →
  foldl (λ d kv, dict_set kv.1 kv.2 d) d pairs = d ++ pairs.
Proof.
  revert d. induction pairs as [|[k v] pairs IH]; intros d Hnd; cbn.
  - by rewrite app_nil_r.
  - rewrite dict_set_fresh.
    + rewrite IH; [by rewrite <- app_assoc|].
      by rewrite fmap_app, <- app_assoc.
    + apply NoDup_app in Hnd as (_ & Hdisj & _).
      intros Hin. apply (Hdisj k Hin). by left.
Qed.

Lemma ordered_dict_distinct_keys pairs : NoDup pairs.*1 → ordered_dict pairs = pairs.
Proof. intros Hnd. unfold ordered_dict. by rewrite foldl_dict_set_fresh. Qed.

End DictProperties.

(** ** Request handlers *)

Section HandlerProperties.
Context `{CaseMapping}.

Lemma keep_provided_length items acc :
  (length (keep_provided items acc) ≤ length acc + count_non_null items)%nat.
Proof.
  unfold count_non_null.
  revert acc. induction items as [|[k v] items IH]; intros acc; cbn [keep_provided].
  - cbn. lia.
  - destruct (decide (v = JNull)) as [->|Hv].
    + cbn [is_none]. rewrite filter_cons_False by (cbn; tauto). apply IH.
    + rewrite is_none_false, filter_cons_True by done.
      specialize (IH (dict_set k v acc)).
      pose proof (dict_set_length k v acc). cbn [length]. lia.
Qed.

Lemma keep_provided_as_foldl items acc :
  keep_provided items acc =
  foldl (λ d kv, dict_set kv.1 kv.2 d) acc (filter (λ kv, kv.2 ≠ JNull) items).
Proof.
  revert acc. induction items as [|[k v] items IH]; intros acc; [done|].
  cbn [keep_provided]. destruct (decide (v = JNull)) as [->|Hv].
  - cbn [is_none]. by rewrite filter_cons_False by (cbn; tauto).
  - by rewrite is_none_false, filter_cons_True by done.
Qed.

Lemma keep_provided_distinct_keys (data : list (str * value)) :
  NoDup data.*1 → keep_provided data [] = filter (λ kv, kv.2 ≠ JNull) data.
Proof.
  intros Hnd. rewrite keep_provided_as_foldl, foldl_dict_set_fresh; [done|].
  cbn. apply (sublist_NoDup _ data.*1); [exact Hnd|].
  apply fmap_sublist, sublist_filter.
Qed.

Lemma fill_pascal_facts_non_null items acc :
  fill_pascal_facts (filter (λ kv, kv.2 ≠ JNull) items) acc
  = fill_pascal_facts items acc.
Proof.
  revert acc. induction items as [|[k v] items IH]; intros acc; [done|].
  cbn [fill_pascal_facts]. destruct (decide (v = JNull)) as [->|Hv].
  - cbn [is_none]. by rewrite filter_cons_False by (cbn; tauto).
  - rewrite filter_cons_True by done. cbn [fill_pascal_facts].
    by rewrite is_none_false.
Qed.

Lemma match_rule_provided (data : list (str * value)) rules :
  NoDup data.*1 →
  match_rule (keep_provided data []) rules = match_rule data rules.
Proof.
  intros Hnd. unfold match_rule, pascal_facts_of.
  by rewrite keep_provided_distinct_keys, fill_pascal_facts_non_null.
Qed.

Lemma match_rule_None_iff (facts : list (str * value)) rules :
  match_rule facts rules = None ↔
  Forall (λ r, ¬ qualifies (normalized_mapping facts) r) rules.
Proof.
  unfold match_rule. rewrite pascal_facts_of_normalized.
  apply first_match_None_iff.
Qed.

(** The handler past its two guards. *)
Lemma dropout_risk_enough_facts (data : list (str * value)) (rules : list rule) :
  NoDup data.*1 →
  (3 ≤ count_non_null data)%nat →
  dropout_risk (ReqMapping data) (Content rules) =
  match match_rule data rules with
  | Some r =>
      if rule_truthy r then
        ((PredictionJson
            (format_prediction (default (lit "StayEnrolled") (prediction r))
               (default (Some []) (actions r))), 200),
         [CallLoadRules; CallMatchRule; CallFormatPrediction])
      else ((PredictionJson no_match_response, 200), [CallLoadRules; CallMatchRule])
  | None => ((PredictionJson no_match_response, 200), [CallLoadRules; CallMatchRule])
  end.
Proof.
  intros Hnd Hmany. unfold dropout_risk, dropout_risk_try.
  destruct data as [|kv data]; [cbn in Hmany; lia|]. cbv beta iota zeta.
  unfold count_non_null in Hmany.
  rewrite (keep_provided_distinct_keys (kv :: data)) by done.
  destruct (Z.ltb_spec (Z.of_nat (length (filter (λ kv, kv.2 ≠ JNull) (kv :: data)))) 3)
    as [Hlt|_]; [lia|].
  rewrite <- (keep_provided_distinct_keys (kv :: data)) by done.
  unfold load_rules, load_json, call, mbind, M_bind, mret, M_ret.
  cbv beta iota zeta.
  rewrite match_rule_provided by done.
  destruct (match_rule (kv :: data) rules) as [r|]; [|done].
  by destruct (rule_truthy r).
Qed.

(** C4. A request mapping with fewer than three non-null entries is answered
    with status 400, whatever rules.json holds (missing, malformed or any rule
    list), and the handler makes no call on the way: it neither loads the
    rules nor runs the matcher. *)
Theorem too_few_facts_rejected (data : list (str * value))
    (rules_json : json_file (list rule)) :
  (count_non_null data < 3)%nat →
  ∃ msg, dropout_risk (ReqMapping data) rules_json = ((ErrorJson msg, 400), []).
Proof.
  intros Hfew. unfold dropout_risk, dropout_risk_try.
  destruct data as [|kv data]; [by eexists|].
  pose proof (keep_provided_length (kv :: data) []) as Hlen. cbn [length] in Hlen.
  destruct (Z.ltb_spec (Z.of_nat (length (keep_provided (kv :: data) []))) 3)
    as [_|Hge]; [by eexists | lia].
Qed.

(** C8. A request mapping with at least three non-null entries, on which no
    rule of the loaded list qualifies, is answered with status 200 and the
    fixed default: no dropout, risk level Medium, the generic explanation and
    the two generic remedies. The keys of a mapping are distinct. *)
Theorem no_match_default_response (data : list (str * value)) (rules : list rule) :
  NoDup data.*1 →
  (3 ≤ count_non_null data)%nat →
  Forall (λ r, ¬ qualifies (normalized_mapping data) r) rules →
  ∃ r trace,
    dropout_risk (ReqMapping data) (Content rules) = ((PredictionJson r, 200), trace) ∧
    willDropout r = false ∧
    riskLevel r = lit "Medium" ∧
    explanation r =
      lit "Based on the provided facts, no specific rule matched. General monitoring recommended." ∧
    remedies r = [lit "Regular check-ins with academic advisor";
                  lit "Monitor academic performance"].
Proof.
  intros Hnd Hmany Hnone.
  exists no_match_response, [CallLoadRules; CallMatchRule].
  split; [|done].
  rewrite dropout_risk_enough_facts by done.
  by rewrite (proj2 (match_rule_None_iff data rules) Hnone).
Qed.

Lemma fill_camel_facts_as_foldl {V : Type} (items acc : list (str * V)) :
  fill_camel_facts items acc =
  foldl (λ d kv, dict_set kv.1 kv.2 d) acc (external_form items).
Proof.
  revert acc. induction items as [|[k v] items IH]; intros acc; [done|].
  cbn [fill_camel_facts]. by rewrite IH.
Qed.

(** C9, amended. When no two keys of the fact definitions take the same
    external form, the facts listing is the mapping with every key in
    external form, in the order of the source, for a mapping of any size. *)
Theorem facts_listing_preserves_order {V : Type} (facts : list (str * V)) :
  NoDup (pascal_to_camel <$> facts.*1) →
  get_facts (Content facts) = ((FactsJson (external_form facts), 200), [CallLoadFacts]).
Proof.
  intros Hnd. unfold get_facts, load_facts, load_json, call.
  unfold mbind, M_bind, mret, M_ret. cbv beta iota zeta.
  rewrite ordered_dict_distinct_keys by apply (NoDup_fmap_1 pascal_to_camel), Hnd.
  rewrite fill_camel_facts_as_foldl, foldl_dict_set_fresh; [done|].
  cbn [fmap list_fmap app]. unfold external_form.
  rewrite <- list_fmap_compose. rewrite <- list_fmap_compose in Hnd. exact Hnd.
Qed.

(** C10 fails on a rule that is the empty object: it matches, as it has no
    condition, but the handler takes it for no match and answers with the two
    generic remedies instead of the formatted default label and no remedy. *)
Theorem empty_rule_answered_as_no_match :
  match_rule three_facts [empty_rule] = Some empty_rule ∧
  prediction empty_rule = None ∧ actions empty_rule = None ∧
  dropout_risk (ReqMapping three_facts) (Content [empty_rule])
  = ((PredictionJson no_match_response, 200), [CallLoadRules; CallMatchRule]) ∧
  remedies no_match_response ≠ [] ∧
  no_match_response ≠ format_prediction (lit "StayEnrolled") (Some []).
Proof.
  split; [reflexivity|]. split; [reflexivity|]. split; [reflexivity|].
  split; [reflexivity|]. split; [discriminate|].
  intros Heq. apply (f_equal remedies) in Heq.
  rewrite format_prediction_remedies in Heq. discriminate.
Qed.

End HandlerProperties.

Lemma too_few_facts_rejected_witness :
  (count_non_null [(lit "age", JInt 19); (lit "gpa", JNull)] < 3)%nat ∧
  ∃ msg,
    @dropout_risk ascii_case
      (ReqMapping [(lit "age", JInt 19); (lit "gpa", JNull)]) Missing
    = ((ErrorJson msg, 400), []).
Proof.
  assert (Hfew : (count_non_null [(lit "age", JInt 19); (lit "gpa", JNull)] < 3)%nat)
    by (vm_compute; lia).
  split; [exact Hfew|].
  exact (@too_few_facts_rejected ascii_case _ Missing Hfew).
Defined.

Lemma no_match_default_response_witness :
  @match_rule ascii_case three_facts [enrolled_is_one] = None ∧
  ∃ r trace,
    @dropout_risk ascii_case (ReqMapping three_facts) (Content [enrolled_is_one])
    = ((PredictionJson r, 200), trace) ∧
    willDropout r = false ∧
    riskLevel r = lit "Medium" ∧
    explanation r =
      lit "Based on the provided facts, no specific rule matched. General monitoring recommended." ∧
    remedies r = [lit "Regular check-ins with academic advisor";
                  lit "Monitor academic performance"].
Proof.
  split; [vm_compute; reflexivity|].
  apply (@no_match_default_response ascii_case three_facts [enrolled_is_one]).
  - apply (bool_decide_unpack _). vm_compute. exact I.
  - vm_compute. lia.
  - constructor; [|constructor].
    apply not_qualifies_by_test. vm_compute. reflexivity.
Defined.

Lemma facts_listing_preserves_order_witness :
  @get_facts ascii_case Z (Content [(lit "Age", 19); (lit "Gpa", 3); (lit "age2", 0)])
  = ((FactsJson [(lit "age", 19); (lit "gpa", 3); (lit "age2", 0)], 200),
     [CallLoadFacts]).
Proof.
  apply (@facts_listing_preserves_order ascii_case Z
           [(lit "Age", 19); (lit "Gpa", 3); (lit "age2", 0)]).
  apply (bool_decide_unpack _). vm_compute. exact I.
Defined.

(** C9 as stated fails: two distinct keys that differ in the case of their
    first letter take the same external form, and the listing holds one entry
    for the two, with the value of the later one. *)
Lemma facts_listing_collision_counterexample :
  NoDup [lit "Age"; lit "age"] ∧
  @get_facts ascii_case Z (Content [(lit "Age", 1); (lit "age", 2)])
  = ((FactsJson [(lit "age", 2)], 200), [CallLoadFacts]) ∧
  [(lit "age", 2)] ≠ @external_form ascii_case Z [(lit "Age", 1); (lit "age", 2)].
Proof.
  split; [apply (bool_decide_unpack _); vm_compute; exact I|].
  split; [vm_compute; reflexivity | discriminate].
Qed.

(** * Further properties *)

(** ** Rule matcher: what the facts contribute *)

Section MatcherFacts.
Context `{CaseMapping}.

Lemma fill_pascal_facts_app facts more acc :
  fill_pascal_facts (facts ++ more) acc
  = fill_pascal_facts more (fill_pascal_facts facts acc).
Proof.
  revert acc. induction facts as [|[k v] facts IH]; intros acc; [done|].
  cbn. by destruct (is_none v).
Qed.

Lemma fill_pascal_facts_untouched K facts acc :
  Forall (λ kv, kv.2 = JNull ∨ camel_to_pascal kv.1 ≠ K) facts →
  fill_pascal_facts facts acc !! K = acc !! K.
Proof.
  intros Hfacts. revert acc.
  induction Hfacts as [|[k v] facts Hkv _ IH]; intros acc; [done|].
  cbn [fill_pascal_facts]. destruct Hkv as [Hnull|Hne]; cbn in *.
  - subst v. apply IH.
  - destruct (is_none v); rewrite IH; [done|]. by rewrite lookup_insert_ne.
Qed.

Lemma fill_pascal_facts_values facts acc K v :
  map_Forall (λ _ w, w ≠ JNull) acc →
  fill_pascal_facts facts acc !! K = Some v → v ≠ JNull.
Proof.
  revert acc. induction facts as [|[k w] facts IH]; intros acc Hacc.
  - cbn. apply Hacc.
  - cbn [fill_pascal_facts]. destruct w; cbn [is_none];
      first [by apply IH | apply IH; by apply map_Forall_insert_2].
Qed.

Lemma conditions_match_empty conds :
  conditions_match ∅ conds = true → conds = [].
Proof. destruct conds as [|[k c] conds]; [done|]. cbn. by rewrite lookup_empty. Qed.

(** A fact whose value is null is as good as absent: [match_rule] gives the
    same result on the facts and on the facts without the null ones. *)
Theorem match_rule_ignores_null_facts (facts : list (str * value)) (rules : list rule) :
  match_rule (filter (λ kv, kv.2 ≠ JNull) facts) rules = match_rule facts rules.
Proof.
  unfold match_rule, pascal_facts_of. revert rules.
  generalize (∅ : gmap (list N) value).
  induction facts as [|[k v] facts IH]; intros acc rules; [done|].
  destruct (decide (v = JNull)) as [->|Hv].
  - rewrite filter_cons_False by (cbn; tauto). cbn [fill_pascal_facts is_none].
    apply IH.
  - rewrite filter_cons_True by done. cbn [fill_pascal_facts].
    destruct (is_none v); apply IH.
Qed.

(** The order of the facts in the request does not matter, as long as no two
    non-null facts have the same internal name. *)
Theorem match_rule_fact_order_irrelevant (facts facts' : list (str * value))
    (rules : list rule) :
  facts ≡ₚ facts' →
  NoDup (normalized_facts facts).*1 →
  match_rule facts rules = match_rule facts' rules.
Proof.
  intros Hperm Hnd. unfold match_rule.
  rewrite !pascal_facts_of_normalized. f_equal.
  unfold normalized_mapping. apply list_to_map_proper.
  - by rewrite fmap_reverse, reverse_Permutation.
  - rewrite !reverse_Permutation. unfold normalized_facts. by rewrite Hperm.
Qed.

(** When two facts have the same internal name (as "age" and "Age"), the
    later one in the request decides: the mapping that the conditions are
    tested on holds the value of the last non-null fact of that name. *)
Theorem later_fact_wins (before after : list (str * value)) (k : str) (v : value) :
  v ≠ JNull →
  Forall (λ kv, kv.2 = JNull ∨ camel_to_pascal kv.1 ≠ camel_to_pascal k) after →
  pascal_facts_of (before ++ (k, v) :: after) !! camel_to_pascal k = Some v.
Proof.
  intros Hv Hafter. unfold pascal_facts_of.
  rewrite fill_pascal_facts_app. cbn [fill_pascal_facts].
  rewrite is_none_false by done.
  rewrite fill_pascal_facts_untouched by done. apply lookup_insert_eq.
Qed.

(** A rule with a condition that asks for null, or for the float NaN, never
    passes its condition test, whatever the facts: null facts are left out
    before matching, and NaN is equal to nothing. *)
Theorem null_condition_never_matches (facts : list (str * value)) (r : rule)
    (k : str) (c : value) :
  (k, c) ∈ get_conditions r →
  c = JNull ∨ c = JFloat FNaN →
  conditions_match (pascal_facts_of facts) (get_conditions r) = false ∧
  ∀ rules, match_rule facts rules ≠ Some r.
Proof.
  intros Hin Hc.
  assert (Hfalse : conditions_match (pascal_facts_of facts) (get_conditions r) = false).
  { destruct (conditions_match _ _) eqn:Hm; [|done].
    destruct (proj1 (conditions_match_true _ _) Hm k c Hin) as (v & Hv & Heq).
    apply fill_pascal_facts_values in Hv; [|apply map_Forall_empty].
    destruct Hc as [-> | ->]; [by destruct v|].
    destruct v as [| | |[]|]; try done. }
  split; [done|]. intros rules Hsome.
  apply first_match_Some in Hsome as (_ & _ & _ & Hq%conditions_match_qualifies & _).
  congruence.
Qed.

(** With no fact, or only null facts, the only rules that can match are those
    without conditions. *)
Theorem no_facts_only_unconditional (facts : list (str * value))
    (rules : list rule) (r : rule) :
  Forall (λ kv, kv.2 = JNull) facts →
  match_rule facts rules = Some r →
  get_conditions r = [].
Proof.
  intros Hnull Hsome. unfold match_rule in Hsome.
  assert (Hempty : pascal_facts_of facts = ∅).
  { apply map_eq. intros K. unfold pascal_facts_of.
    rewrite fill_pascal_facts_untouched; [done|].
    eapply Forall_impl; [exact Hnull|]. by left. }
  rewrite Hempty in Hsome.
  apply first_match_Some in Hsome as (_ & _ & _ & Hq%conditions_match_qualifies & _).
  by apply conditions_match_empty.
Qed.


End MatcherFacts.

Lemma match_rule_fact_order_irrelevant_witness :
  @match_rule ascii_case [(lit "age", JInt 19); (lit "enrolled", JInt 1)] [enrolled_is_one]
  = @match_rule ascii_case [(lit "enrolled", JInt 1); (lit "age", JInt 19)] [enrolled_is_one].
Proof.
  apply (@match_rule_fact_order_irrelevant ascii_case).
  - apply perm_swap.
  - apply (bool_decide_unpack _). vm_compute. exact I.
Defined.

Lemma later_fact_wins_witness :
  @pascal_facts_of ascii_case
    ([(lit "age", JInt 18)] ++ (lit "Age", JInt 19) :: [(lit "gpa", JNull)])
  !! @camel_to_pascal ascii_case (lit "Age") = Some (JInt 19).
Proof.
  apply (@later_fact_wins ascii_case); [discriminate|].
  constructor; [by left | constructor].
Defined.

Lemma null_condition_never_matches_witness :
  let r := {| conditions := Some [(lit "Age", JNull)]; prediction := None;
              actions := None; other_keys := [] |} in
  conditions_match (@pascal_facts_of ascii_case [(lit "age", JNull)]) (get_conditions r)
  = false.
Proof.
  cbv zeta.
  refine (proj1 (@null_condition_never_matches ascii_case [(lit "age", JNull)]
                   _ (lit "Age") JNull _ _)); [left | by left].
Defined.

Lemma no_facts_only_unconditional_witness :
  @match_rule ascii_case [(lit "age", JNull)] [enrolled_is_one; empty_rule]
  = Some empty_rule ∧
  get_conditions empty_rule = [].
Proof.
  assert (Hm : @match_rule ascii_case [(lit "age", JNull)] [enrolled_is_one; empty_rule]
               = Some empty_rule) by (vm_compute; reflexivity).
  split; [exact Hm|].
  apply (@no_facts_only_unconditional ascii_case [(lit "age", JNull)]
           [enrolled_is_one; empty_rule]); [|exact Hm].
  constructor; [reflexivity | constructor].
Defined.


(** ** Response formatter: ranges *)

Section FormatterRanges.
Context `{CaseMapping}.

(** The risk level of a formatted prediction is one of High, Low and Medium,
    and [willDropout] is true exactly when the level is High, which is exactly
    when the label lower-cases to "dropout". *)
Theorem format_prediction_ranges (prediction : str) (actions : option (list str)) :
  let r := format_prediction prediction actions in
  riskLevel r ∈ [lit "High"; lit "Low"; lit "Medium"] ∧
  (willDropout r = true ↔ riskLevel r = lit "High") ∧
  (willDropout r = true ↔ str_lower prediction = lit "dropout").
Proof.
  cbv zeta. unfold format_prediction.
  repeat case_bool_decide; cbn [willDropout riskLevel];
    (split; [set_solver|]); split; split; intros; done.
Qed.

End FormatterRanges.

(** ** The dropout-risk handler: outcomes and failures *)

Section HandlerOutcomes.
Context `{CaseMapping}.

Lemma dropout_risk_by_provided (data data' : list (str * value))
    (rules_json : json_file (list rule)) :
  data ≠ [] → data' ≠ [] →
  keep_provided data [] = keep_provided data' [] →
  dropout_risk (ReqMapping data) rules_json = dropout_risk (ReqMapping data') rules_json.
Proof.
  intros Hd Hd' Heq. unfold dropout_risk, dropout_risk_try.
  destruct data as [|kv data]; [done|]. destruct data' as [|kv' data']; [done|].
  cbv beta iota zeta. by rewrite Heq.
Qed.

(** When the request has enough facts but rules.json cannot be loaded, the
    answer is 500 with the message of the failure of [load_rules], and the
    matcher is not run. *)
Theorem rules_load_failure (data : list (str * value)) :
  NoDup data.*1 →
  (3 ≤ count_non_null data)%nat →
  dropout_risk (ReqMapping data) Missing
  = ((ErrorJson (lit "Rules file not found"), 500), [CallLoadRules]) ∧
  dropout_risk (ReqMapping data) Malformed
  = ((ErrorJson (lit "Invalid rules file format"), 500), [CallLoadRules]) ∧
  ∀ msg, dropout_risk (ReqMapping data) (Unusable msg)
         = ((ErrorJson msg, 500), [CallLoadRules]).
Proof.
  intros Hnd Hmany. unfold dropout_risk, dropout_risk_try.
  destruct data as [|kv data]; [cbn in Hmany; lia|]. cbv beta iota zeta.
  unfold count_non_null in Hmany.
  rewrite (keep_provided_distinct_keys (kv :: data)) by done.
  destruct (Z.ltb_spec (Z.of_nat (length (filter (λ kv, kv.2 ≠ JNull) (kv :: data)))) 3)
    as [Hlt|_]; [lia|]. done.
Qed.

(** A fact sent with the value null is as good as not sent, as long as one
    fact is left: the answer is the same without the null entries. A body
    with null entries only is answered 400 for too few facts, not as a
    missing body. *)
Theorem null_facts_as_omitted (data : list (str * value))
    (rules_json : json_file (list rule)) :
  NoDup data.*1 →
  data ≠ [] →
  let provided := filter (λ kv, kv.2 ≠ JNull) data in
  (provided ≠ [] →
   dropout_risk (ReqMapping data) rules_json
   = dropout_risk (ReqMapping provided) rules_json) ∧
  (provided = [] →
   dropout_risk (ReqMapping data) rules_json
   = ((ErrorJson (lit "At least 3 facts are required"), 400), [])).
Proof.
  intros Hnd Hdata provided.
  assert (Hkeep : keep_provided data [] = provided)
    by (by apply keep_provided_distinct_keys).
  split.
  - intros Hprov. apply dropout_risk_by_provided; [done..|].
    rewrite Hkeep. symmetry. rewrite keep_provided_distinct_keys.
    + unfold provided. by rewrite list_filter_filter_l.
    + apply (sublist_NoDup _ data.*1); [exact Hnd|].
      apply fmap_sublist, sublist_filter.
  - intros Hnone. unfold dropout_risk, dropout_risk_try.
    destruct data as [|kv data]; [done|]. cbv beta iota zeta.
    by rewrite Hkeep, Hnone.
Qed.

End HandlerOutcomes.

Lemma rules_load_failure_witness :
  @dropout_risk ascii_case (ReqMapping three_facts) Missing
  = ((ErrorJson (lit "Rules file not found"), 500), [CallLoadRules]).
Proof.
  refine (proj1 (@rules_load_failure ascii_case three_facts _ _)).
  - apply (bool_decide_unpack _). vm_compute. exact I.
  - vm_compute. lia.
Defined.

Lemma null_facts_as_omitted_witness :
  @dropout_risk ascii_case
    (ReqMapping [(lit "a", JInt 1); (lit "x", JNull); (lit "b", JInt 2); (lit "c", JInt 3)])
    (Content [empty_rule])
  = @dropout_risk ascii_case (ReqMapping three_facts) (Content [empty_rule]).
Proof.
  refine (proj1 (@null_facts_as_omitted ascii_case
                   [(lit "a", JInt 1); (lit "x", JNull); (lit "b", JInt 2); (lit "c", JInt 3)]
                   (Content [empty_rule]) _ _) _).
  - apply (bool_decide_unpack _). vm_compute. exact I.
  - discriminate.
  - discriminate.
Defined.

(** ** The facts listing when names collide *)

Section DictLookup.
Context {V : Type}.
Implicit Types (d items : list (str * V)).

Lemma dict_set_keys k (v : V) d :
  (dict_set k v d).*1 = if decide (k ∈ d.*1) then d.*1 else d.*1 ++ [k].
Proof.
  induction d as [|[k' v'] d IH]; cbn; [done|].
  destruct (decide (k = k')) as [->|Hne]; cbn.
  - by rewrite decide_True by left.
  - rewrite IH. destruct (decide (k ∈ d.*1)) as [Hin|Hnin].
    + by rewrite decide_True by (by right).
    + rewrite decide_False; [done|]. by intros [?|?]%elem_of_cons.
Qed.

Lemma dict_get_dict_set k k' (v : V) d :
  dict_get k' (dict_set k v d) = if decide (k' = k) then Some v else dict_get k' d.
Proof.
  induction d as [|[k0 v0] d IH]; cbn.
  - by destruct (decide (k' = k)).
  - destruct (decide (k = k0)) as [->|Hne]; cbn.
    + by destruct (decide (k' = k0)).
    + rewrite IH. destruct (decide (k' = k0)) as [->|]; [|done].
      by rewrite decide_False by done.
Qed.

Lemma dict_get_app k d items :
  dict_get k (d ++ items) = match dict_get k d with
                            | Some v => Some v
                            | None => dict_get k items
                            end.
Proof.
  induction d as [|[k' v'] d IH]; cbn; [done|]. by destruct (decide (k = k')).
Qed.

Lemma foldl_dict_set_keys items d :
  NoDup d.*1 →
  let d' := foldl (λ d kv, dict_set kv.1 kv.2 d) d items in
  NoDup d'.*1 ∧
  (∃ added, d'.*1 = d.*1 ++ added ∧ added `sublist_of` items.*1) ∧
  (∀ k, k ∈ d'.*1 ↔ k ∈ d.*1 ∨ k ∈ items.*1).
Proof.
  cbv zeta. revert d. induction items as [|[k v] items IH]; intros d Hnd; cbn.
  - split; [done|]. split; [exists []; by rewrite app_nil_r|].
    intros k. rewrite elem_of_nil. tauto.
  - assert (Hnd' : NoDup (dict_set k v d).*1).
    { rewrite dict_set_keys. case_decide; [done|].
      apply NoDup_app. split; [done|]. split; [|apply NoDup_singleton].
      by intros x Hx ->%list_elem_of_singleton. }
    destruct (IH _ Hnd') as (Hnodup & (added & Hkeys & Hsub) & Hmem).
    split; [done|]. split.
    + rewrite Hkeys, dict_set_keys. case_decide.
      * exists added. split; [done|]. by apply sublist_cons.
      * exists (k :: added). rewrite <- app_assoc. split; [done|].
        by apply sublist_skip.
    + intros k0. rewrite Hmem, dict_set_keys, elem_of_cons.
      case_decide; [|rewrite elem_of_app, list_elem_of_singleton; tauto].
      split; [tauto|]. intros [?|[->|?]]; tauto.
Qed.

Lemma foldl_dict_set_first_occurrences items d :
  (foldl (λ d kv, dict_set kv.1 kv.2 d) d items).*1
  = d.*1 ++ filter (λ k, k ∉ d.*1) (first_occurrences items.*1).
Proof.
  revert d. induction items as [|[k v] items IH]; intros d.
  - cbn. by rewrite app_nil_r.
  - cbn [foldl fmap list_fmap first_occurrences fst]. rewrite IH, dict_set_keys.
    rewrite filter_cons, list_filter_filter.
    destruct (decide (k ∈ d.*1)) as [Hin|Hnin].
    + rewrite decide_False by tauto. f_equal. apply list_filter_iff.
      intros k'. split; [|tauto]. intros Hk'. split; [done|]. by intros ->.
    + rewrite decide_True by done. rewrite <- app_assoc. cbn [app]. do 2 f_equal.
      apply list_filter_iff. intros k'.
      rewrite not_elem_of_app, list_elem_of_singleton. tauto.
Qed.

Lemma foldl_dict_set_get k items d :
  dict_get k (foldl (λ d kv, dict_set kv.1 kv.2 d) d items)
  = match dict_get k (reverse items) with
    | Some v => Some v
    | None => dict_get k d
    end.
Proof.
  revert d. induction items as [|[k' v'] items IH]; intros d; [done|].
  cbn [foldl]. rewrite IH, reverse_cons, dict_get_app, dict_get_dict_set. cbn.
  destruct (dict_get k (reverse items)); [done|]. by destruct (decide (k = k')).
Qed.

End DictLookup.

Lemma filter_all {A : Type} (P : A → Prop) `{∀ x, Decision (P x)} (l : list A) :
  (∀ x, P x) → filter P l = l.
Proof.
  intros HP. induction l as [|x l IH]; [done|].
  by rewrite filter_cons_True, IH.
Qed.

Section FactsListing.
Context `{CaseMapping}.

(** Whatever the keys of the fact definitions, the listing is answered with
    status 200 and is a proper mapping: no key twice, its keys are the
    external forms of the source keys, in source order with each name once,
    at its first place, and where several source keys take one external form
    the value listed is that of the last of them. *)
Theorem facts_listing_with_collisions {V : Type} (facts : list (str * V)) :
  NoDup facts.*1 →
  ∃ listing,
    get_facts (Content facts) = ((FactsJson listing, 200), [CallLoadFacts]) ∧
    NoDup listing.*1 ∧
    listing.*1 `sublist_of` (external_form facts).*1 ∧
    (∀ k, k ∈ listing.*1 ↔ k ∈ (external_form facts).*1) ∧
    (∀ k, dict_get k listing = dict_get k (reverse (external_form facts))) ∧
    listing.*1 = first_occurrences (external_form facts).*1.
Proof.
  intros Hnd. exists (fill_camel_facts facts []).
  split.
  { unfold get_facts, load_facts, load_json, call.
    unfold mbind, M_bind, mret, M_ret. cbv beta iota zeta.
    by rewrite ordered_dict_distinct_keys. }
  rewrite fill_camel_facts_as_foldl.
  destruct (foldl_dict_set_keys (external_form facts) [] (NoDup_nil_2))
    as (Hnodup & (added & Hkeys & Hsub) & Hmem).
  split; [done|]. split; [by rewrite Hkeys|]. split.
  { intros k. rewrite Hmem. cbn. rewrite elem_of_nil. tauto. }
  split.
  - intros k. rewrite foldl_dict_set_get.
    by destruct (dict_get k (reverse (external_form facts))).
  - rewrite foldl_dict_set_first_occurrences. cbn [fmap list_fmap app].
    apply filter_all. intros k. apply not_elem_of_nil.
Qed.

End FactsListing.

Lemma facts_listing_with_collisions_witness :
  ∃ listing,
    @get_facts ascii_case Z (Content [(lit "Age", 1); (lit "Gpa", 3); (lit "age", 2)])
    = ((FactsJson listing, 200), [CallLoadFacts]) ∧
    listing.*1 `sublist_of` [lit "age"; lit "gpa"; lit "age"] ∧
    dict_get (lit "age") listing = Some 2 ∧
    listing.*1 = [lit "age"; lit "gpa"].
Proof.
  destruct (@facts_listing_with_collisions ascii_case Z
              [(lit "Age", 1); (lit "Gpa", 3); (lit "age", 2)])
    as (listing & Hget & _ & Hsub & _ & Hval & Hkeys).
  - apply (bool_decide_unpack _). vm_compute. exact I.
  - exists listing. split; [exact Hget|]. split; [exact Hsub|].
    split; [exact (Hval (lit "age")) | exact Hkeys].
Defined.

(** ** Login *)

Section LoginProperties.
Variables timestamp encode_error : str.

(** A token is issued, with status 200 and the user name "User", exactly for
    a body whose email and password are the two strings of the source (and
    the token is the one [generate_token] makes for that email); no other
    request gets a token. *)
Theorem login_token_only_for_credentials (body : request_json)
    (token name : str) (status : Z) :
  login timestamp encode_error body = (LoginToken token name, status) ↔
  (∃ data, body = ReqMapping data ∧
     get_value (lit "email") data = JStr (lit "user@gmail.com") ∧
     get_value (lit "password") data = JStr (lit "Pwd4516")) ∧
  generate_token timestamp (lit "user@gmail.com") = Some token ∧
  name = lit "User" ∧ status = 200.
Proof.
  unfold login, login_try. split.
  - destruct body as [msg| |msg|[|kv data]]; try done.
    cbv beta iota zeta.
    destruct (negb _ || negb _); [done|].
    destruct (get_value (lit "email") (kv :: data)) as [| | | |e] eqn:Hemail;
      try done.
    destruct (get_value (lit "password") (kv :: data)) as [| | | |p] eqn:Hpwd;
      try done.
    destruct (bool_decide (e = _) && bool_decide (p = _)) eqn:Hcred; [|done].
    apply andb_prop in Hcred as [He Hp].
    apply bool_decide_eq_true in He, Hp. subst e p.
    destruct (generate_token timestamp (lit "user@gmail.com")) eqn:Htoken; [|done].
    intros [= <- <- <-]. split; [|done]. by exists (kv :: data).
  - intros ((data & -> & Hemail & Hpwd) & Htoken & -> & ->).
    destruct data as [|kv data]; [done|].
    cbv beta iota zeta. rewrite Hemail, Hpwd. cbn [py_truthy negb orb].
    rewrite !bool_decide_eq_true_2 by done. cbn [andb]. by rewrite Htoken.
Qed.

(** A body in which the email or the password is missing, null, false, zero
    or the empty string is answered 400, not 401. *)
Theorem login_missing_field_rejected (data : list (str * value)) :
  py_truthy (get_value (lit "email") data) = false ∨
  py_truthy (get_value (lit "password") data) = false →
  ∃ msg, login timestamp encode_error (ReqMapping data) = (LoginError msg, 400).
Proof.
  intros Hmissing. unfold login, login_try.
  destruct data as [|kv data]; [by eexists|]. cbv beta iota zeta.
  destruct Hmissing as [-> | ->]; cbn [negb orb];
    rewrite ?orb_true_r; by eexists.
Qed.

(** An email and a password that are both given, but are not the two strings
    of the source, are answered 401 with "Invalid credentials". *)
Theorem login_wrong_credentials (data : list (str * value)) :
  py_truthy (get_value (lit "email") data) = true →
  py_truthy (get_value (lit "password") data) = true →
  get_value (lit "email") data ≠ JStr (lit "user@gmail.com") ∨
  get_value (lit "password") data ≠ JStr (lit "Pwd4516") →
  login timestamp encode_error (ReqMapping data)
  = (LoginError (lit "Invalid credentials"), 401).
Proof.
  intros Hemail Hpwd Hwrong. unfold login, login_try.
  destruct data as [|kv data]; [done|]. cbv beta iota zeta.
  rewrite Hemail, Hpwd. cbn [negb orb].
  destruct (get_value (lit "email") (kv :: data)) as [| | | |e]; try done.
  destruct (get_value (lit "password") (kv :: data)) as [| | | |p]; try done.
  destruct Hwrong as [Hne|Hne].
  - rewrite (bool_decide_eq_false_2 (e = _)) by congruence. done.
  - rewrite (bool_decide_eq_false_2 (p = _)) by congruence.
    by rewrite andb_false_r.
Qed.

End LoginProperties.

Lemma login_missing_field_rejected_witness :
  ∃ msg,
    login sample_timestamp []
      (ReqMapping [(lit "email", JStr (lit "user@gmail.com")); (lit "password", JStr [])])
    = (LoginError msg, 400).
Proof.
  apply (login_missing_field_rejected sample_timestamp []). right. reflexivity.
Defined.

Lemma login_wrong_credentials_witness :
  login sample_timestamp []
    (ReqMapping [(lit "email", JStr (lit "user@gmail.com")); (lit "password", JInt 4516)])
  = (LoginError (lit "Invalid credentials"), 401).
Proof.
  apply (login_wrong_credentials sample_timestamp []);
    [reflexivity | reflexivity | right; discriminate].
Defined.

(** ** The login token *)

Ltac div_lia := zify; Z.to_euclidean_division_equations; lia.

Lemma list_ind_3 {A : Type} (P : list A → Prop) :
  P [] → (∀ a, P [a]) → (∀ a b, P [a; b]) →
  (∀ a b c rest, P rest → P (a :: b :: c :: rest)) →
  ∀ l, P l.
Proof.
  intros H0 H1 H2 H3 l.
  assert (Hall : P l ∧ (∀ a, P (a :: l)) ∧ (∀ a b, P (a :: b :: l))).
  { induction l as [|x l (IH0 & IH1 & IH2)]; [by auto|].
    split; [apply IH1|]. split; [intros a; apply IH2|].
    intros a b. by apply H3. }
  apply Hall.
Qed.

Lemma below_64 (P : N → Prop) `{∀ s, Decision (P s)} :
  bool_decide (Forall P (N.of_nat <$> seq 0 64)) = true →
  ∀ s, (s < 64)%N → P s.
Proof.
  intros Hall%bool_decide_eq_true s Hs. rewrite Forall_forall in Hall.
  apply Hall, list_elem_of_fmap. exists (N.to_nat s).
  split; [lia|]. apply elem_of_seq. lia.
Qed.

Lemma b64index_b64char (s : N) : (s < 64)%N → b64index (b64char s) = Some s.
Proof.
  revert s. apply (below_64 (λ s, b64index (b64char s) = Some s)).
  vm_compute. reflexivity.
Qed.

Lemma b64char_not_pad (s : N) : (s < 64)%N → (b64char s =? 61)%N = false.
Proof.
  revert s. apply (below_64 (λ s, (b64char s =? 61)%N = false)).
  vm_compute. reflexivity.
Qed.

Lemma b64decode_b64encode (bs : list N) :
  Forall (λ b, (b < 256)%N) bs → b64decode (b64encode bs) = Some bs.
Proof.
  induction bs as [|a|a b|a b c rest IH] using list_ind_3; intros Hbytes.
  - done.
  - apply Forall_cons_1 in Hbytes as [Ha _].
    cbn [b64encode b64decode].
    rewrite !b64index_b64char by div_lia. cbn.
    do 2 f_equal. div_lia.
  - apply Forall_cons_1 in Hbytes as [Ha [Hb _]%Forall_cons_1].
    cbn [b64encode b64decode].
    rewrite !b64index_b64char by div_lia. cbn [mbind option_bind].
    rewrite b64char_not_pad by div_lia.
    rewrite N.eqb_refl. cbn [mbind option_bind].
    do 2 f_equal; [div_lia | f_equal; div_lia].
  - apply Forall_cons_1 in Hbytes as
      [Ha [Hb [Hc Hrest]%Forall_cons_1]%Forall_cons_1].
    cbn [b64encode b64decode app].
    rewrite !b64index_b64char by div_lia. cbn [mbind option_bind].
    rewrite b64char_not_pad by div_lia.
    rewrite IH by done. cbn [mbind option_bind app].
    do 2 f_equal; [div_lia | f_equal; [div_lia | f_equal; div_lia]].
Qed.

Lemma utf8_encode_ascii (s : str) :
  Forall (λ c, (c < 128)%N) s → utf8_encode s = Some s.
Proof.
  induction 1 as [|c s Hc _ IH]; [done|]. cbn [utf8_encode].
  unfold utf8_encode_char. rewrite (proj2 (N.ltb_lt _ _) Hc). by rewrite IH.
Qed.

Lemma utf8_encode_app (s t : str) :
  utf8_encode (s ++ t) = bs ← utf8_encode s; more ← utf8_encode t; Some (bs ++ more).
Proof.
  induction s as [|c s IH]; cbn.
  - by destruct (utf8_encode t).
  - rewrite IH. destruct (utf8_encode_char c); [|done]. cbn.
    destruct (utf8_encode s); [|done]. cbn.
    destruct (utf8_encode t); [|done]. cbn. by rewrite app_assoc.
Qed.

Lemma utf8_encode_char_bytes (c : N) (bs : list N) :
  utf8_encode_char c = Some bs → Forall (λ b, (b < 256)%N) bs.
Proof.
  unfold utf8_encode_char.
  repeat (case_match; try done); intros [= <-];
    repeat match goal with
    | Hc : (_ <? _)%N = true |- _ => apply N.ltb_lt in Hc
    end;
    repeat constructor; div_lia.
Qed.

Lemma utf8_encode_bytes (s : str) (bs : list N) :
  utf8_encode s = Some bs → Forall (λ b, (b < 256)%N) bs.
Proof.
  revert bs. induction s as [|c s IH]; intros bs; cbn.
  - by intros [= <-].
  - destruct (utf8_encode_char c) as [hd|] eqn:Hc; [|done].
    destruct (utf8_encode s) as [tl|]; [|done]. intros [= <-].
    apply Forall_app. split; [by eapply utf8_encode_char_bytes | by apply IH].
Qed.

Ltac b64_alphabet :=
  repeat first
    [ apply Forall_nil_2
    | apply Forall_cons_2;
      [first [by left | right; rewrite b64index_b64char by div_lia; done]|] ].

Lemma b64encode_shape (bs : list N) :
  Forall (λ b, (b < 256)%N) bs →
  (∃ n, length (b64encode bs) = 4 * n ∧ length bs ≤ 3 * n ∧ 3 * n ≤ length bs + 2)%nat ∧
  Forall (λ c, c = 61%N ∨ is_Some (b64index c)) (b64encode bs).
Proof.
  induction bs as [|a|a b|a b c rest IH] using list_ind_3; intros Hbytes.
  - split; [exists 0%nat; cbn; lia | constructor].
  - apply Forall_cons_1 in Hbytes as [Ha _].
    split; [exists 1%nat; cbn; lia|]. cbn [b64encode]. b64_alphabet.
  - apply Forall_cons_1 in Hbytes as [Ha [Hb _]%Forall_cons_1].
    split; [exists 1%nat; cbn; lia|]. cbn [b64encode]. b64_alphabet.
  - apply Forall_cons_1 in Hbytes as
      [Ha [Hb [Hc Hrest]%Forall_cons_1]%Forall_cons_1].
    destruct (IH Hrest) as [(n & Hlen & Hlo & Hhi) Halpha].
    split.
    + exists (S n). cbn [b64encode]. rewrite length_app, Hlen. cbn [length]. lia.
    + cbn [b64encode app]. b64_alphabet. exact Halpha.
Qed.

Lemma ascii_bytes (s : str) :
  Forall (λ c, (c < 128)%N) s → Forall (λ b, (b < 256)%N) s.
Proof. intros Hs. eapply Forall_impl; [exact Hs|]. intros c Hc. cbn in *. lia. Qed.

Lemma token_data_ascii (timestamp email : str) :
  Forall (λ c, (c < 128)%N) (email ++ timestamp) →
  Forall (λ c, (c < 128)%N) (email ++ lit ":" ++ timestamp).
Proof.
  intros [He Ht]%Forall_app. apply Forall_app. split; [done|].
  apply Forall_app. split; [|done]. by repeat constructor.
Qed.

(** The token of a successful login always starts with the same twenty
    characters, the base64 text of "user@gmail.com:"; what follows is the
    base64 text of the timestamp alone. *)
Theorem token_starts_with_encoded_email (timestamp token : str) :
  generate_token timestamp (lit "user@gmail.com") = Some token →
  ∃ bs, utf8_encode timestamp = Some bs ∧
        token = lit "dXNlckBnbWFpbC5jb206" ++ b64encode bs.
Proof.
  unfold generate_token. cbv zeta.
  change (lit "user@gmail.com" ++ lit ":" ++ timestamp)
    with (lit "user@gmail.com:" ++ timestamp).
  rewrite utf8_encode_app.
  change (utf8_encode (lit "user@gmail.com:")) with (Some (lit "user@gmail.com:")).
  cbn [mbind option_bind].
  destruct (utf8_encode timestamp) as [bs|]; [|done].
  cbn [mbind option_bind fmap option_fmap option_map]. intros [= <-].
  exists bs. split; reflexivity.
Qed.

(** For an email and a timestamp of ASCII characters, as those of a login
    are, the token is made without error and decodes, as base64, to the text
    [email:timestamp]: whoever holds a token can read both. *)
Theorem token_decodes_to_email_and_time (timestamp email : str) :
  Forall (λ c, (c < 128)%N) (email ++ timestamp) →
  ∃ token, generate_token timestamp email = Some token ∧
           b64decode token = Some (email ++ lit ":" ++ timestamp).
Proof.
  intros Hascii%token_data_ascii. unfold generate_token. cbv zeta.
  rewrite utf8_encode_ascii by done. eexists. split; [reflexivity|].
  by apply b64decode_b64encode, ascii_bytes.
Qed.

(** Tokens made for the same email at different timestamps differ. *)
Theorem token_determines_time (timestamp timestamp' email : str) :
  Forall (λ c, (c < 128)%N) (email ++ timestamp) →
  Forall (λ c, (c < 128)%N) (email ++ timestamp') →
  timestamp ≠ timestamp' →
  generate_token timestamp email ≠ generate_token timestamp' email.
Proof.
  intros Hascii%token_data_ascii Hascii'%token_data_ascii Hne.
  unfold generate_token. cbv zeta. rewrite !utf8_encode_ascii by done.
  intros [= Heq]. apply Hne. apply (f_equal b64decode) in Heq.
  rewrite !b64decode_b64encode in Heq by (by apply ascii_bytes).
  injection Heq as Heq. apply app_inv_head in Heq. by injection Heq.
Qed.

(** A token is base64 text: its length is four times the number of groups of
    three bytes that the encoded text fills, the last one possibly in part,
    and each of its characters is of the base64 alphabet or the padding [=]. *)
Theorem token_shape (timestamp email token : str) :
  generate_token timestamp email = Some token →
  ∃ bs, utf8_encode (email ++ lit ":" ++ timestamp) = Some bs ∧
    (∃ n, length token = 4 * n ∧ length bs ≤ 3 * n ∧ 3 * n ≤ length bs + 2)%nat ∧
    Forall (λ c, c = 61%N ∨ is_Some (b64index c)) token.
Proof.
  unfold generate_token. cbv zeta.
  destruct (utf8_encode _) as [bs|] eqn:Hbs; [|done].
  cbn [fmap option_fmap option_map]. intros [= <-].
  exists bs. split; [done|]. by eapply b64encode_shape, utf8_encode_bytes.
Qed.

Lemma sample_token :
  generate_token sample_timestamp (lit "user@gmail.com")
  = Some (lit "dXNlckBnbWFpbC5jb206MjAyNi0xMS0wNFQxMDowMDowMC4xMjM0NTY=").
Proof. vm_compute. reflexivity. Qed.

Lemma sample_ascii :
  Forall (λ c, (c < 128)%N) (lit "user@gmail.com" ++ sample_timestamp).
Proof. apply (bool_decide_unpack _). vm_compute. exact I. Qed.

Lemma token_starts_with_encoded_email_witness :
  ∃ bs, utf8_encode sample_timestamp = Some bs ∧
        lit "dXNlckBnbWFpbC5jb206MjAyNi0xMS0wNFQxMDowMDowMC4xMjM0NTY="
        = lit "dXNlckBnbWFpbC5jb206" ++ b64encode bs.
Proof. exact (token_starts_with_encoded_email _ _ sample_token). Defined.

Lemma token_decodes_to_email_and_time_witness :
  ∃ token, generate_token sample_timestamp (lit "user@gmail.com") = Some token ∧
           b64decode token = Some (lit "user@gmail.com" ++ lit ":" ++ sample_timestamp).
Proof. exact (token_decodes_to_email_and_time _ _ sample_ascii). Defined.

Lemma token_determines_time_witness :
  sample_timestamp ≠ lit "2026-11-04T10:00:01" ∧
  generate_token sample_timestamp (lit "user@gmail.com")
  ≠ generate_token (lit "2026-11-04T10:00:01") (lit "user@gmail.com").
Proof.
  assert (Hne : sample_timestamp ≠ lit "2026-11-04T10:00:01") by discriminate.
  split; [exact Hne|].
  apply (token_determines_time _ _ _ sample_ascii); [|exact Hne].
  apply (bool_decide_unpack _). vm_compute. exact I.
Defined.

Lemma token_shape_witness :
  ∃ bs, utf8_encode (lit "user@gmail.com" ++ lit ":" ++ sample_timestamp) = Some bs ∧
    (∃ n, length (lit "dXNlckBnbWFpbC5jb206MjAyNi0xMS0wNFQxMDowMDowMC4xMjM0NTY=") = 4 * n ∧
          length bs ≤ 3 * n ∧ 3 * n ≤ length bs + 2)%nat ∧
    Forall (λ c, c = 61%N ∨ is_Some (b64index c))
      (lit "dXNlckBnbWFpbC5jb206MjAyNi0xMS0wNFQxMDowMDowMC4xMjM0NTY=").
Proof. exact (token_shape _ _ _ sample_token). Defined.

(** ** The handler over rule objects with fields of any type *)

Section RawHandlerProperties.
Context `{CaseMapping}.

Lemma first_match_raw_typed m (rules : list rule) :
  first_match_raw m ((λ r, RuleObject (raw_of_rule r)) <$> rules)
  = inr (raw_of_rule <$> first_match m rules).
Proof.
  induction rules as [|r rules IH]; [done|]. cbn.
  unfold get_conditions. destruct (conditions r) as [conds|]; cbn; [|done].
  destruct (conditions_match m conds); [done|]. apply IH.
Qed.

Lemma raw_rule_truthy_typed (r : rule) :
  raw_rule_truthy (raw_of_rule r) = rule_truthy r.
Proof.
  unfold raw_rule_truthy, rule_truthy, raw_of_rule. cbn.
  by destruct (conditions r), (prediction r), (actions r), (other_keys r).
Qed.

(** On rules of the record type [rule] the handler over rule objects is
    [dropout_risk]. *)
Lemma dropout_risk_raw_typed (body : request_json) (rules_json : json_file (list rule)) :
  dropout_risk_raw body (raw_of_file rules_json) = dropout_risk body rules_json.
Proof.
  unfold dropout_risk_raw, dropout_risk, dropout_risk_raw_try, dropout_risk_try.
  destruct body as [msg| |msg|[|kv data]]; try done. cbv beta iota zeta.
  destruct (_ <? 3); [done|].
  unfold load_rules, load_json, call, mbind, M_bind, mret, M_ret.
  destruct rules_json as [| |msg|rules]; try done.
  cbv beta iota zeta. unfold raw_of_file, match_rule_raw, match_rule.
  rewrite first_match_raw_typed.
  destruct (first_match _ rules) as [r|]; [|done].
  cbn [fmap option_fmap option_map]. rewrite raw_rule_truthy_typed.
  destruct (rule_truthy r); [|done].
  unfold raw_of_rule. cbn [raw_prediction raw_actions].
  by destruct (prediction r).
Qed.

Lemma pascal_facts_of_provided (data : list (str * value)) :
  NoDup data.*1 → pascal_facts_of (keep_provided data []) = pascal_facts_of data.
Proof.
  intros Hnd. unfold pascal_facts_of.
  by rewrite keep_provided_distinct_keys, fill_pascal_facts_non_null.
Qed.

(** The handler past its two guards, with loaded rules. *)
Lemma dropout_risk_raw_enough_facts (data : list (str * value)) (rules : raw_rules) :
  NoDup data.*1 →
  (3 ≤ count_non_null data)%nat →
  dropout_risk_raw (ReqMapping data) (Content rules) =
  match match_rule_raw data rules with
  | inl msg => ((ErrorJson msg, 500), [CallLoadRules; CallMatchRule])
  | inr (Some r) =>
      if raw_rule_truthy r then
        match raw_prediction r with
        | Absent =>
            ((PredictionJson
                (format_prediction (lit "StayEnrolled")
                   (default (Some []) (raw_actions r))), 200),
             [CallLoadRules; CallMatchRule; CallFormatPrediction])
        | Typed prediction =>
            ((PredictionJson
                (format_prediction prediction
                   (default (Some []) (raw_actions r))), 200),
             [CallLoadRules; CallMatchRule; CallFormatPrediction])
        | Untyped msg =>
            ((ErrorJson msg, 500),
             [CallLoadRules; CallMatchRule; CallFormatPrediction])
        end
      else ((PredictionJson no_match_response, 200), [CallLoadRules; CallMatchRule])
  | inr None => ((PredictionJson no_match_response, 200), [CallLoadRules; CallMatchRule])
  end.
Proof.
  intros Hnd Hmany. unfold dropout_risk_raw, dropout_risk_raw_try.
  destruct data as [|kv data]; [cbn in Hmany; lia|]. cbv beta iota zeta.
  unfold count_non_null in Hmany.
  rewrite (keep_provided_distinct_keys (kv :: data)) by done.
  destruct (Z.ltb_spec (Z.of_nat (length (filter (λ kv, kv.2 ≠ JNull) (kv :: data)))) 3)
    as [Hlt|_]; [lia|].
  rewrite <- (keep_provided_distinct_keys (kv :: data)) by done.
  unfold load_json, call, mbind, M_bind, mret, M_ret, raise.
  cbv beta iota zeta. unfold match_rule_raw.
  rewrite pascal_facts_of_provided by done.
  destruct rules as [entries|msg]; [|done].
  destruct (first_match_raw _ entries) as [msg|[r|]]; [done| |done].
  destruct (raw_rule_truthy r); [|done]. by destruct (raw_prediction r).
Qed.

(** A rule object that matched and is not the empty object is formatted, with
    ["StayEnrolled"] for a missing prediction and no action for missing
    actions, and answered with status 200, when its prediction is a string or
    is missing; when its prediction is of another type (null, a number),
    [format_prediction] raises and the answer is 500 with the message of the
    exception. The default label lower-cases to "stayenrolled", which is none
    of the three known labels (the third is "staysenrolled"), so it gets the
    generic explanation. *)
Theorem matched_rule_formatted (data : list (str * value)) (rules : raw_rules)
    (r : raw_rule) :
  NoDup data.*1 →
  (3 ≤ count_non_null data)%nat →
  match_rule_raw data rules = inr (Some r) →
  raw_rule_truthy r = true →
  let answer := dropout_risk_raw (ReqMapping data) (Content rules) in
  let calls := [CallLoadRules; CallMatchRule; CallFormatPrediction] in
  let actions := default (Some []) (raw_actions r) in
  (∀ msg, raw_prediction r = Untyped msg → answer = ((ErrorJson msg, 500), calls)) ∧
  (∀ label, raw_prediction r = Typed label →
     answer = ((PredictionJson (format_prediction label actions), 200), calls)) ∧
  (raw_prediction r = Absent →
     answer = ((PredictionJson (format_prediction (lit "StayEnrolled") actions), 200),
               calls) ∧
     (str_lower (lit "StayEnrolled") = lit "stayenrolled" →
      willDropout (format_prediction (lit "StayEnrolled") actions) = false ∧
      riskLevel (format_prediction (lit "StayEnrolled") actions) = lit "Medium" ∧
      explanation (format_prediction (lit "StayEnrolled") actions) =
        lit "Based on the provided facts, the expert system prediction: StayEnrolled")) ∧
  (raw_actions r = None → ∀ label, remedies (format_prediction label actions) = []).
Proof.
  intros Hnd Hmany Hsome Htruthy. cbv zeta.
  rewrite dropout_risk_raw_enough_facts, Hsome, Htruthy by done.
  split; [by intros msg ->|]. split; [by intros label ->|]. split.
  - intros ->. split; [done|]. intros Hlower.
    unfold format_prediction. rewrite Hlower. by vm_compute.
  - intros -> label. by rewrite format_prediction_remedies.
Qed.

(** Every answer of the handler is an error with status 400 or 500, or a
    prediction with status 200. An answer 400 comes before any call; an answer
    500 comes at any point: before any call, after loading the rules, after
    the matcher ran, or after [format_prediction] was called; a prediction
    comes after loading and matching, with [format_prediction] called last
    if at all. *)
Theorem dropout_risk_outcomes (body : request_json) (rules_json : json_file raw_rules) :
  match dropout_risk_raw body rules_json with
  | ((ErrorJson _, status), trace) =>
      (status = 400 ∧ trace = []) ∨
      (status = 500 ∧
       (trace = [] ∨ trace = [CallLoadRules] ∨
        trace = [CallLoadRules; CallMatchRule] ∨
        trace = [CallLoadRules; CallMatchRule; CallFormatPrediction]))
  | ((PredictionJson _, status), trace) =>
      status = 200 ∧
      (trace = [CallLoadRules; CallMatchRule] ∨
       trace = [CallLoadRules; CallMatchRule; CallFormatPrediction])
  end.
Proof.
  unfold dropout_risk_raw, dropout_risk_raw_try.
  destruct body as [msg| |msg|[|kv data]]; cbn; auto.
  destruct (_ <? 3); cbn; auto.
  unfold load_json, call, mbind, M_bind, mret, M_ret, raise.
  destruct rules_json as [| |msg|rules]; cbn; auto.
  destruct (match_rule_raw _ rules) as [msg|[r|]]; cbn; auto 7.
  destruct (raw_rule_truthy r); cbn; auto.
  destruct (raw_prediction r); cbn; auto 7.
Qed.

End RawHandlerProperties.

(** The two late failures happen: a null prediction is answered 500 after
    [format_prediction] was called, null conditions after the matcher ran. *)
Example late_failures :
  @dropout_risk_raw ascii_case (ReqMapping three_facts)
    (Content (RulesList [RuleObject null_prediction_rule]))
  = ((ErrorJson (lit "'NoneType' object has no attribute 'lower'"), 500),
     [CallLoadRules; CallMatchRule; CallFormatPrediction]) ∧
  @dropout_risk_raw ascii_case (ReqMapping three_facts)
    (Content (RulesList [RuleObject null_conditions_rule]))
  = ((ErrorJson (lit "'NoneType' object has no attribute 'items'"), 500),
     [CallLoadRules; CallMatchRule]).
Proof. split; vm_compute; reflexivity. Qed.

Lemma matched_rule_formatted_witness :
  @dropout_risk_raw ascii_case (ReqMapping three_facts)
    (Content (RulesList [RuleObject null_prediction_rule]))
  = ((ErrorJson (lit "'NoneType' object has no attribute 'lower'"), 500),
     [CallLoadRules; CallMatchRule; CallFormatPrediction]) ∧
  @dropout_risk_raw ascii_case
    (ReqMapping [(lit "enrolled", JBool true); (lit "a", JInt 1); (lit "b", JInt 2)])
    (Content (RulesList [RuleObject (raw_of_rule enrolled_is_one)]))
  = ((PredictionJson
        (@format_prediction ascii_case (lit "StayEnrolled") (Some [])), 200),
     [CallLoadRules; CallMatchRule; CallFormatPrediction]).
Proof.
  split.
  - refine (proj1 (@matched_rule_formatted ascii_case three_facts
                     (RulesList [RuleObject null_prediction_rule])
                     null_prediction_rule _ _ _ _) _ _);
      [apply (bool_decide_unpack _); vm_compute; exact I
      | vm_compute; lia | reflexivity | reflexivity | reflexivity].
  - refine (proj1 (proj1 (proj2 (proj2
              (@matched_rule_formatted ascii_case
                 [(lit "enrolled", JBool true); (lit "a", JInt 1); (lit "b", JInt 2)]
                 (RulesList [RuleObject (raw_of_rule enrolled_is_one)])
                 (raw_of_rule enrolled_is_one) _ _ _ _))) _));
      [apply (bool_decide_unpack _); vm_compute; exact I
      | vm_compute; lia | vm_compute; reflexivity | reflexivity | reflexivity].
Defined.
